(** * Secure Drive relay: a shallow embedding of [app.py]

    The server keeps a one-slot cache of the last Drive folder listing,
    filters and indexes image files, proxies images and falls back over
    four URL shapes for a published sheet.  Handlers are embedded as
    functions in a small state-and-log monad: the state is the module
    level [cache] dictionary, the log records every cache access and every
    outbound [requests.get].

    Modelling conventions.
    - A Python [str] is a [string]; one [ascii] stands for one code point
      below 256.  On that range [\d] is exactly [0-9], and [str.isspace]
      and [str.lower] are the tables given below.
    - A Python [int] is a [Z]; [int()] is taken without the interpreter's
      cap on the number of digits it converts.
    - [time.time()] is a rational number of seconds ([Q]).  For two clock
      readings less than a factor two apart the float subtraction of the
      source is exact, so the comparison with [CACHE_DURATION] is the one
      on rationals.
    - Everything the code reads off a [requests] response object is a field
      of [response]; a call that raises is [Raised msg] with [msg] the text
      of [str(e)].  [raise_for_status] follows [requests]: it raises for the
      4xx and 5xx statuses and for no other.
    - [print] calls are not modelled. *)

From Stdlib Require Import Ascii QArith Lqa.
From stdpp Require Import base decidable option list sorting gmap strings pretty.

Local Open Scope Z_scope.

(** ** Characters and strings *)

Module Str.

Definition code (c : ascii) : Z := Z.of_N (Ascii.N_of_ascii c).

(** [\d] on code points below 256. *)
Definition is_digit (c : ascii) : bool :=
  (48 <=? code c) && (code c <=? 57).

Definition digit_value (c : ascii) : Z := code c - 48.

(** [str.isspace] on code points below 256. *)
Definition is_space (c : ascii) : bool :=
  let n := code c in
  ((9 <=? n) && (n <=? 13)) || ((28 <=? n) && (n <=? 32))
  || (n =? 133) || (n =? 160).

(** [str.lower] on code points below 256. *)
Definition lower_char (c : ascii) : ascii :=
  let n := code c in
  if ((65 <=? n) && (n <=? 90))
     || ((192 <=? n) && (n <=? 222) && negb (n =? 215))
  then Ascii.ascii_of_N (Z.to_N (n + 32)) else c.

Fixpoint lower (s : string) : string :=
  match s with
  | EmptyString => EmptyString
  | String c t => String (lower_char c) (lower t)
  end.

(** [s.startswith(p)] *)
Fixpoint startswith (p s : string) : bool :=
  match p, s with
  | EmptyString, _ => true
  | String a p', String b s' => if decide (a = b) then startswith p' s' else false
  | String _ _, EmptyString => false
  end.

(** [sub in s] *)
Fixpoint contains (sub s : string) : bool :=
  startswith sub s ||
  match s with
  | EmptyString => false
  | String _ t => contains sub t
  end.

(** [c in s] for a single character *)
Fixpoint has_char (c : ascii) (s : string) : bool :=
  match s with
  | EmptyString => false
  | String a t => if decide (a = c) then true else has_char c t
  end.

Fixpoint lstrip (s : string) : string :=
  match s with
  | EmptyString => EmptyString
  | String c t => if is_space c then lstrip t else s
  end.

Fixpoint rstrip (s : string) : string :=
  match s with
  | EmptyString => EmptyString
  | String c t =>
      match rstrip t with
      | EmptyString => if is_space c then EmptyString else String c EmptyString
      | t' => String c t'
      end
  end.

(** [s.strip()] *)
Definition strip (s : string) : string := rstrip (lstrip s).

(** Truthiness of a [str]. *)
Definition nonempty (s : string) : bool :=
  match s with EmptyString => false | String _ _ => true end.

(** Decimal rendering of a status code or a count, as an f-string does. *)
Definition of_Z (z : Z) : string := pretty z.

End Str.

(** ** [re.search(r'(\d+)', name)] and [int(match.group(1))] *)

Module Re.

(** Skip to the leftmost digit. *)
Fixpoint skip_non_digits (s : string) : string :=
  match s with
  | EmptyString => EmptyString
  | String c t => if Str.is_digit c then s else skip_non_digits t
  end.

(** Greedy [\d+] from the current position. *)
Fixpoint take_digits (s : string) : string :=
  match s with
  | EmptyString => EmptyString
  | String c t => if Str.is_digit c then String c (take_digits t) else EmptyString
  end.

(** [re.search(r'(\d+)', s)]: [None] when there is no match, otherwise
    [match.group(1)]. *)
Definition search_digits (s : string) : option string :=
  match take_digits (skip_non_digits s) with
  | EmptyString => None
  | run => Some run
  end.

(** [int(run)] on a string of digits, most significant first. *)
Fixpoint int_acc (acc : Z) (run : string) : Z :=
  match run with
  | EmptyString => acc
  | String c t => int_acc (acc * 10 + Str.digit_value c) t
  end.

Definition int (run : string) : Z := int_acc 0 run.

End Re.

(** ** Records of the listing *)

(** One entry of [data['files']].  The request asks for
    [files(id,name,mimeType,modifiedTime)]; the code reads [id] and [name]
    by subscript and the other two with [.get] and a default. *)
Record RawFile := {
  rf_id : string;
  rf_name : string;
  rf_mimeType : option string;
  rf_modifiedTime : option string
}.

(** One entry of [image_files]. *)
Record ImageFile := {
  img_id : string;
  img_name : string;
  img_index : Z;
  img_url : string;
  img_proxy_url : string;
  img_modified : string
}.

(** One value of [image_mapping]: the image record without its index. *)
Record Projection := {
  pj_id : string;
  pj_name : string;
  pj_url : string;
  pj_proxy_url : string;
  pj_modified : string
}.

Global Instance RawFile_eq_dec : EqDecision RawFile.
Proof. solve_decision. Defined.
Global Instance ImageFile_eq_dec : EqDecision ImageFile.
Proof. solve_decision. Defined.
Global Instance Projection_eq_dec : EqDecision Projection.
Proof. solve_decision. Defined.

Definition download_url (file_id : string) : string :=
  "https://drive.google.com/uc?id=" +:+ file_id +:+ "&export=download".

Definition proxy_path (file_id : string) : string :=
  "/api/proxy-image/" +:+ file_id.

(** The body of the filter loop for one [file]: [None] when the file is
    skipped, otherwise the dictionary appended to [image_files]. *)
Definition image_of (file : RawFile) : option ImageFile :=
  if Str.startswith "image/" (default "" (rf_mimeType file)) then
    match Re.search_digits (rf_name file) with
    | Some run =>
        Some {| img_id := rf_id file;
                img_name := rf_name file;
                img_index := Re.int run;
                img_url := download_url (rf_id file);
                img_proxy_url := proxy_path (rf_id file);
                img_modified := default "" (rf_modifiedTime file) |}
    | None => None
    end
  else None.

(** [image_files.sort(key=lambda x: x['index'])]: Python's sort is stable
    and ascending; a stable sort has one possible result, computed here by
    insertion from the right. *)
Fixpoint insert_by_index (x : ImageFile) (l : list ImageFile) : list ImageFile :=
  match l with
  | [] => [x]
  | y :: l' =>
      if img_index x <=? img_index y then x :: y :: l'
      else y :: insert_by_index x l'
  end.

Fixpoint sort_by_index (l : list ImageFile) : list ImageFile :=
  match l with
  | [] => []
  | x :: l' => insert_by_index x (sort_by_index l')
  end.

(** Lines 67-91 of [get_drive_files]: filter, index, sort. *)
Definition filter_and_index (files : list RawFile) : list ImageFile :=
  sort_by_index (omap image_of files).

Definition projection (f : ImageFile) : Projection :=
  {| pj_id := img_id f;
     pj_name := img_name f;
     pj_url := img_url f;
     pj_proxy_url := img_proxy_url f;
     pj_modified := img_modified f |}.

(** The loop of [discover_images] filling [image_mapping]. *)
Definition image_mapping (files : list ImageFile) : gmap Z Projection :=
  foldl (fun m f => <[img_index f := projection f]> m) ∅ files.

(** ** The outside world: [requests.get], the clock *)

(** The arguments of one [requests.get] call. *)
Record request := {
  rq_url : string;
  rq_params : list (string * string);
  rq_timeout : Z
}.

(** What the handlers read off a [requests] response object.
    - [content_type] is [response.headers.get('content-type')];
    - [content_utf8] is [response.content.decode('utf-8')], [None] when that
      raises [UnicodeDecodeError];
    - [json_files] is [response.json().get('files', [])] with every entry
      carrying the subscripted keys, [None] when reading it raises (a body
      that is not JSON, not an object, or an entry without [id] or
      [name]). *)
Record response := {
  status_code : Z;
  reason : string;
  resp_url : string;
  content_type : option string;
  encoding : option string;
  text : string;
  content : list Byte.byte;
  content_utf8 : option string;
  json_files : option (list RawFile)
}.

(** A call either raises (timeout, connection error: the message is
    [str(e)]) or returns a response. *)
Inductive outcome :=
| Raised (msg : string)
| Returned (r : response).

(** [response.raise_for_status()]: [Some msg] when it raises [HTTPError]
    with message [msg], which [requests] does for the 4xx and 5xx
    statuses only. *)
Definition raise_for_status (r : response) : option string :=
  if (400 <=? status_code r) && (status_code r <? 500) then
    Some (Str.of_Z (status_code r) +:+ " Client Error: " +:+ reason r
          +:+ " for url: " +:+ resp_url r)
  else if (500 <=? status_code r) && (status_code r <? 600) then
    Some (Str.of_Z (status_code r) +:+ " Server Error: " +:+ reason r
          +:+ " for url: " +:+ resp_url r)
  else None.

(** What one request sees of the world: [time.time()],
    [datetime.now().isoformat()] and the network. *)
Record world := {
  w_time : Q;
  w_isoformat : string;
  w_http : request -> outcome
}.

(** ** The cache and the effect monad *)

(** The module-level [cache] dictionary. *)
Record cache := {
  c_data : option (list ImageFile);
  c_timestamp : Q;
  c_folder_id : option string
}.

Definition initial_cache : cache :=
  {| c_data := None; c_timestamp := 0%Q; c_folder_id := None |}.

Inductive event :=
| CacheRead
| CacheWrite
| HttpGet (rq : request).

(** A handler threads the cache and appends to the log. *)
Definition M (A : Type) : Type := cache -> A * cache * list event.

Definition ret {A} (a : A) : M A := fun c => (a, c, []).

Definition bind {A B} (m : M A) (k : A -> M B) : M B :=
  fun c =>
    let '(a, c1, l1) := m c in
    let '(b, c2, l2) := k a c1 in
    (b, c2, l1 ++ l2).

Notation "'let*' x := m 'in' k" := (bind m (fun x => k))
  (at level 10, x name, m at level 100, k at level 200, only parsing).

Definition read_cache : M cache := fun c => (c, c, [CacheRead]).
Definition write_cache (c' : cache) : M unit := fun _ => (tt, c', [CacheWrite]).
Definition http_get (w : world) (rq : request) : M outcome :=
  fun c => (w_http w rq, c, [HttpGet rq]).

Definition result {A} (x : A * cache * list event) : A := x.1.1.
Definition final_cache {A} (x : A * cache * list event) : cache := x.1.2.
Definition trace {A} (x : A * cache * list event) : list event := x.2.

(** ** Responses of the handlers *)

Inductive body :=
| ErrorJson (error : string)
| DiscoverJson (success : bool) (images : gmap Z Projection)
    (total_found : Z) (folder_id : string) (timestamp : string)
| SheetsJson (success : bool) (csv_data url_used timestamp : string)
| SheetsFailedJson (success : bool) (error : string) (tried_formats : Z)
| StatusJson (status : string) (api_configured : bool) (cache_entries : Z)
    (timestamp : string)
| Bytes (payload : list Byte.byte) (mimetype : string)
    (headers : list (string * string)).

(** A Flask return value: the body and the HTTP status. *)
Record reply := { rp_body : body; rp_status : Z }.

Definition CACHE_DURATION : Q := 30%Q.

Definition Qltb (x y : Q) : bool := negb (Qle_bool y x).

(** Truthiness of [cache['data']]: [None] and the empty list are false. *)
Definition truthy_data (d : option (list ImageFile)) : bool :=
  match d with
  | Some (_ :: _) => true
  | _ => false
  end.

(** The condition of the cache check at the head of [get_drive_files]. *)
Definition cache_hit (c : cache) (folder_id : string) (current_time : Q) : bool :=
  truthy_data (c_data c)
  && bool_decide (c_folder_id c = Some folder_id)
  && Qltb (current_time - c_timestamp c) CACHE_DURATION.

(** The cache seen as the lookup of a one-slot store. *)
Definition lookup_cache (c : cache) (folder_id : string) (current_time : Q)
  : option (list ImageFile) :=
  if cache_hit c folder_id current_time then c_data c else None.

Section Server.

(** [os.environ.get('GOOGLE_API_KEY', 'YOUR_API_KEY_HERE')], read once at
    import. *)
Variable GOOGLE_API_KEY : string.

Definition drive_request (folder_id : string) : request :=
  {| rq_url := "https://www.googleapis.com/drive/v3/files";
     rq_params := [("q", "'" +:+ folder_id +:+ "' in parents");
                   ("key", GOOGLE_API_KEY);
                   ("fields", "files(id,name,mimeType,modifiedTime)");
                   ("pageSize", "1000")];
     rq_timeout := 10 |}.

(** [get_drive_files]: [None] is the failure sentinel of both [except]
    branches. *)
Definition get_drive_files (w : world) (folder_id : string)
  : M (option (list ImageFile)) :=
  let current_time := w_time w in
  let* c := read_cache in
  if cache_hit c folder_id current_time then ret (c_data c)
  else
    let* o := http_get w (drive_request folder_id) in
    match o with
    | Raised _ => ret None
    | Returned response =>
        match raise_for_status response with
        | Some _ => ret None
        | None =>
            match json_files response with
            | None => ret None
            | Some files =>
                let image_files := filter_and_index files in
                let* _ := write_cache {| c_data := Some image_files;
                                         c_timestamp := current_time;
                                         c_folder_id := Some folder_id |} in
                ret (Some image_files)
            end
        end
    end.

(** [discover_images] *)
Definition discover_images (w : world) (folder_id : string) : M reply :=
  if negb (Str.nonempty folder_id) then
    ret {| rp_body := ErrorJson "No folder ID provided"; rp_status := 400 |}
  else
    let* files := get_drive_files w folder_id in
    match files with
    | None =>
        ret {| rp_body := ErrorJson "Failed to fetch files from Google Drive";
               rp_status := 500 |}
    | Some files =>
        ret {| rp_body := DiscoverJson true (image_mapping files)
                            (Z.of_nat (length files)) folder_id (w_isoformat w);
               rp_status := 200 |}
    end.

(** [get_status] *)
Definition get_status (w : world) : M reply :=
  let* c := read_cache in
  let entries :=
    (if truthy_data (c_data c) then 1 else 0)
    + (if Qeq_bool (c_timestamp c) 0 then 0 else 1)
    + (if Str.nonempty (default "" (c_folder_id c)) then 1 else 0) in
  ret {| rp_body :=
           StatusJson "running"
             (Str.nonempty GOOGLE_API_KEY
              && negb (bool_decide (GOOGLE_API_KEY = "YOUR_API_KEY_HERE")))
             entries (w_isoformat w);
         rp_status := 200 |}.

End Server.

Definition proxy_request (file_id : string) : request :=
  let drive_url := download_url file_id in
  {| rq_url := drive_url; rq_params := []; rq_timeout := 30 |}.

(** [proxy_image] *)
Definition proxy_image (w : world) (file_id : string) : M reply :=
  let* o := http_get w (proxy_request file_id) in
  match o with
  | Raised e => ret {| rp_body := ErrorJson e; rp_status := 500 |}
  | Returned response =>
      match raise_for_status response with
      | Some e => ret {| rp_body := ErrorJson e; rp_status := 500 |}
      | None =>
          ret {| rp_body :=
                   Bytes (content response)
                     (default "image/jpeg" (content_type response))
                     [("Cache-Control", "public, max-age=3600");
                      ("Access-Control-Allow-Origin", "*")];
                 rp_status := 200 |}
      end
  end.

(** ** The sheet fetcher *)

Definition url_formats (sheet_id : string) : list string :=
  [ "https://docs.google.com/spreadsheets/d/e/" +:+ sheet_id +:+ "/pub?output=csv";
    "https://docs.google.com/spreadsheets/d/" +:+ sheet_id +:+ "/export?format=csv&gid=0";
    "https://docs.google.com/spreadsheets/d/" +:+ sheet_id +:+ "/pub?output=csv";
    "https://docs.google.com/spreadsheets/d/" +:+ sheet_id +:+ "/gviz/tq?tqx=out:csv" ].

Definition sheets_request (sheets_url : string) : request :=
  {| rq_url := sheets_url; rq_params := []; rq_timeout := 10 |}.

Definition comma : ascii := Ascii.ascii_of_N 44.
Definition newline : ascii := Ascii.ascii_of_N 10.

(** [csv_text] after the encoding fix: the stripped [response.text], replaced
    by the UTF-8 decoding of the raw content when the reported encoding is
    not ['utf-8'] and that decoding does not raise. *)
Definition csv_text_of (r : response) : string :=
  let csv_text := Str.strip (text r) in
  if bool_decide (encoding r = Some "utf-8") then csv_text
  else match content_utf8 r with
       | Some decoded => decoded
       | None => csv_text
       end.

(** [csv_text and (',' in csv_text or '\n' in csv_text)] *)
Definition looks_like_csv (csv_text : string) : bool :=
  Str.nonempty csv_text
  && (Str.has_char comma csv_text || Str.has_char newline csv_text).

(** ['text/html' in response.headers.get('content-type', '').lower()] *)
Definition html_typed (r : response) : bool :=
  Str.contains "text/html" (Str.lower (default "" (content_type r))).

(** One iteration of the loop over [url_formats], after the request:
    [Some csv_text] when the iteration returns, [None] when it moves on
    (by [continue], by falling out of the [else], or through [except]). *)
Definition attempt (o : outcome) : option string :=
  match o with
  | Raised _ => None
  | Returned response =>
      if html_typed response then None
      else match raise_for_status response with
           | Some _ => None
           | None =>
               let csv_text := csv_text_of response in
               if looks_like_csv csv_text then Some csv_text else None
           end
  end.

(** The [for] loop: the text and the URL of the first iteration that
    returns. *)
Fixpoint try_formats (w : world) (urls : list string) : M (option (string * string)) :=
  match urls with
  | [] => ret None
  | sheets_url :: rest =>
      let* o := http_get w (sheets_request sheets_url) in
      match attempt o with
      | Some csv_text => ret (Some (csv_text, sheets_url))
      | None => try_formats w rest
      end
  end.

(** [get_sheets_data] *)
Definition get_sheets_data (w : world) (sheet_id : string) : M reply :=
  let* found := try_formats w (url_formats sheet_id) in
  match found with
  | Some (csv_text, sheets_url) =>
      ret {| rp_body := SheetsJson true csv_text sheets_url (w_isoformat w);
             rp_status := 200 |}
  | None =>
      ret {| rp_body :=
               SheetsFailedJson false
                 "All URL formats failed. Make sure sheet is published to web as CSV"
                 (Z.of_nat (length (url_formats sheet_id)));
             rp_status := 500 |}
  end.

(** ** Cache contents and replies by name *)

(** The cache as [get_drive_files] leaves it after listing [files]. *)
Definition stored (w : world) (folder_id : string) (files : list RawFile) : cache :=
  {| c_data := Some (filter_and_index files);
     c_timestamp := w_time w;
     c_folder_id := Some folder_id |}.

(** The two replies of [discover_images] after the folder id check. *)
Definition discovered (w : world) (folder_id : string) (files : list ImageFile) : reply :=
  {| rp_body := DiscoverJson true (image_mapping files)
                  (Z.of_nat (length files)) folder_id (w_isoformat w);
     rp_status := 200 |}.

Definition fetch_failed : reply :=
  {| rp_body := ErrorJson "Failed to fetch files from Google Drive";
     rp_status := 500 |}.

(** ** Vocabulary of the specification *)

Module Spec.

Fixpoint any (p : ascii -> bool) (s : string) : bool :=
  match s with
  | EmptyString => false
  | String c t => p c || any p t
  end.

Fixpoint all (p : ascii -> bool) (s : string) : bool :=
  match s with
  | EmptyString => true
  | String c t => p c && all p t
  end.

Definition starts_with_digit (s : string) : bool :=
  match s with
  | EmptyString => false
  | String c _ => Str.is_digit c
  end.

(** [run] is the first maximal run of decimal digits of [name]: nothing
    before it is a digit, it is a non-empty block of digits, and it
    cannot be extended to the right. *)
Definition first_digit_run (name run : string) : Prop :=
  exists pre post,
    name = pre +:+ run +:+ post
    /\ any Str.is_digit pre = false
    /\ all Str.is_digit run = true
    /\ run <> EmptyString
    /\ starts_with_digit post = false.

(** The number a string of decimal digits denotes, by positional value. *)
Fixpoint decimal_value (run : string) : Z :=
  match run with
  | EmptyString => 0
  | String c t =>
      Str.digit_value c * 10 ^ Z.of_nat (String.length t) + decimal_value t
  end.

(** The raw record is kept by the image filter. *)
Definition kept (file : RawFile) : bool :=
  Str.startswith "image/" (default "" (rf_mimeType file))
  && any Str.is_digit (rf_name file).

(** [img] is the image record of the raw record [file]. *)
Definition indexes (file : RawFile) (img : ImageFile) : Prop :=
  img_id img = rf_id file
  /\ img_name img = rf_name file
  /\ img_url img = download_url (rf_id file)
  /\ img_proxy_url img = proxy_path (rf_id file)
  /\ img_modified img = default "" (rf_modifiedTime file)
  /\ 0 <= img_index img
  /\ exists run, first_digit_run (rf_name file) run
                 /\ img_index img = decimal_value run.

Definition index_le (a b : ImageFile) : Prop := img_index a <= img_index b.

Definition with_index (k : Z) (l : list ImageFile) : list ImageFile :=
  filter (fun f => img_index f = k) l.

(** [out] is the stable ascending sort of [l] by index: sorted, and for
    each index the records carrying it are those of [l], in the order of
    [l]. *)
Definition stable_sort_of (l out : list ImageFile) : Prop :=
  Sorted index_le out
  /\ out ≡ₚ l
  /\ forall k, with_index k out = with_index k l.

(** What the upstream listing call yields to [get_drive_files]: the
    entries of the listing, or nothing when the [try] block is left through
    an [except]. *)
Definition listing (o : outcome) : option (list RawFile) :=
  match o with
  | Raised _ => None
  | Returned r =>
      match raise_for_status r with
      | Some _ => None
      | None => json_files r
      end
  end.

(** A 2xx status. *)
Definition success_status (r : response) : bool :=
  (200 <=? status_code r) && (status_code r <? 300).

(** A 4xx or 5xx status. *)
Definition error_status (r : response) : bool :=
  (400 <=? status_code r) && (status_code r <? 600).

Definition no_error_status (r : response) : bool := negb (error_status r).

Definition non_success_status (r : response) : bool := negb (success_status r).

(** The ways the upstream listing call fails, for a given reading
    [bad_status] of the statuses that count as a failure: the request
    raises (network error, timeout), the status is bad, or the body is
    not a listing. *)
Inductive listing_fails (bad_status : response -> bool) : outcome -> Prop :=
| fails_raised msg :
    listing_fails bad_status (Raised msg)
| fails_status r :
    bad_status r = true -> listing_fails bad_status (Returned r)
| fails_body r :
    json_files r = None -> listing_fails bad_status (Returned r).

(** A fetch fails with the message [msg]: the message of the raised
    exception. *)
Inductive fails_with : outcome -> string -> Prop :=
| fw_raised msg :
    fails_with (Raised msg) msg
| fw_status r msg :
    raise_for_status r = Some msg -> fails_with (Returned r) msg.

Definition api_configured_of (r : reply) : option bool :=
  match rp_body r with
  | StatusJson _ configured _ _ => Some configured
  | _ => None
  end.

Definition error_reply (status : Z) (error : string) : reply :=
  {| rp_body := ErrorJson error; rp_status := status |}.

(** The response passes the three checks of a fetch attempt, for a given
    reading [status_ok] of the status check: it is not HTML-typed, its
    status is fine, and its decoded text is non-empty with a comma or a
    newline. *)
Definition passes (status_ok : response -> bool) (r : response) : bool :=
  negb (html_typed r) && status_ok r && looks_like_csv (csv_text_of r).

(** The template [sheets_url] succeeds in the world [w]: the response that
    passes, if the request returns one. *)
Definition template_passes (status_ok : response -> bool) (w : world)
    (sheets_url : string) : option response :=
  match w_http w (sheets_request sheets_url) with
  | Raised _ => None
  | Returned r => if passes status_ok r then Some r else None
  end.

Definition images_of (r : reply) : option (gmap Z Projection) :=
  match rp_body r with
  | DiscoverJson _ images _ _ _ => Some images
  | _ => None
  end.

(** The cache after a run of [discover_images] calls for the same folder,
    one per world of [ws]. *)
Definition discover_all (key : string) (ws : list world) (folder_id : string)
    (c : cache) : cache :=
  foldl (fun c w => final_cache (discover_images key w folder_id c)) c ws.

Definition sheets_found (w : world) (csv_text sheets_url : string) : reply :=
  {| rp_body := SheetsJson true csv_text sheets_url (w_isoformat w);
     rp_status := 200 |}.

Definition sheets_failed : reply :=
  {| rp_body :=
       SheetsFailedJson false
         "All URL formats failed. Make sure sheet is published to web as CSV" 4;
     rp_status := 500 |}.

Definition requests_of (urls : list string) : list event :=
  map (fun u => HttpGet (sheets_request u)) urls.

(** The two complements of the regex scan: what [skip_non_digits] skips
    and what [take_digits] leaves. *)
Fixpoint take_non_digits (s : string) : string :=
  match s with
  | EmptyString => EmptyString
  | String c t => if Str.is_digit c then EmptyString else String c (take_non_digits t)
  end.

Fixpoint drop_digits (s : string) : string :=
  match s with
  | EmptyString => EmptyString
  | String c t => if Str.is_digit c then drop_digits t else s
  end.

End Spec.

(** ** Fixtures: concrete listings and worlds *)

Module Fixture.

Definition image (file_id name : string) : RawFile :=
  {| rf_id := file_id; rf_name := name;
     rf_mimeType := Some "image/jpeg"; rf_modifiedTime := Some "2024-01-01T00:00:00Z" |}.

Definition file_A : RawFile := image "idA" "slide_03_old.jpg".
Definition file_B : RawFile := image "idB" "3-new.jpg".
Definition file_C : RawFile := image "idC" "slide_01.jpg".
Definition pdf : RawFile :=
  {| rf_id := "idP"; rf_name := "notes_2.pdf";
     rf_mimeType := Some "application/pdf"; rf_modifiedTime := None |}.

Definition listing_response (status : Z) (files : list RawFile) : response :=
  {| status_code := status; reason := ""; resp_url := "";
     content_type := Some "application/json; charset=UTF-8";
     encoding := Some "UTF-8"; text := ""; content := [];
     content_utf8 := Some ""; json_files := Some files |}.

Definition ok_response (files : list RawFile) : response :=
  listing_response 200 files.

Definition csv_response (status : Z) (ctype body : string) : response :=
  {| status_code := status; reason := ""; resp_url := "";
     content_type := Some ctype; encoding := Some "utf-8";
     text := body; content := []; content_utf8 := Some body;
     json_files := None |}.

(** A world whose every request gets the answer [o]. *)
Definition world_at (t : Q) (o : outcome) : world :=
  {| w_time := t; w_isoformat := "2024-01-01T00:00:00"; w_http := fun _ => o |}.

Definition listing_world (t : Q) (files : list RawFile) : world :=
  world_at t (Returned (ok_response files)).

Definition failing_world (t : Q) (msg : string) : world :=
  world_at t (Raised msg).

(** A world answering each sheet URL by its position in [url_formats]. *)
Definition sheets_world (sheet_id : string) (answers : list outcome) : world :=
  {| w_time := 0%Q; w_isoformat := "2024-01-01T00:00:00";
     w_http := fun rq =>
       default (Raised "no route")
         (i ← list_find (fun u => u = rq_url rq) (url_formats sheet_id);
          answers !! i.1) |}.

Definition csv_body : string := "a,b
1,2".

(** Template 1 answers 300 Multiple Choices with a CSV body, template 2
    answers 200. *)
Definition choices_then_csv : world :=
  sheets_world "S"
    [Returned (csv_response 300 "text/csv" "x,y");
     Returned (csv_response 200 "text/csv" csv_body)].

(** Template 1 answers with an HTML page, template 2 with CSV. *)
Definition html_then_csv : world :=
  sheets_world "S"
    [Returned (csv_response 200 "text/html; charset=utf-8" "<html>");
     Returned (csv_response 200 "text/csv" csv_body)].

(** Four failures, one of each kind. *)
Definition all_failing : world :=
  sheets_world "S"
    [Raised "timed out";
     Returned (csv_response 404 "text/plain" "Not Found, sorry");
     Returned (csv_response 200 "text/html" "<html>,</html>");
     Returned (csv_response 200 "text/csv" "nodelimiter")].

End Fixture.

(** ** The routes, and the vocabulary of the further properties *)

(** One request to a route that reaches the network or the cache:
    [/api/discover/<folder_id>], [/api/proxy-image/<file_id>],
    [/api/sheets/<sheet_id>] and [/api/status].  (The landing page only
    formats text.) *)
Inductive call :=
| Discover (folder_id : string)
| ProxyImage (file_id : string)
| SheetsData (sheet_id : string)
| Status.

(** The handler Flask runs for a request. *)
Definition handle (key : string) (w : world) (q : call) : M reply :=
  match q with
  | Discover folder_id => discover_images key w folder_id
  | ProxyImage file_id => proxy_image w file_id
  | SheetsData sheet_id => get_sheets_data w sheet_id
  | Status => get_status key w
  end.

(** The cache after a history of requests, each served in its own world. *)
Definition serve (key : string) (history : list (world * call)) (c : cache) : cache :=
  foldl (fun c wq => final_cache (handle key wq.1 wq.2 c)) c history.

Module Inv.

(** The shapes the cache can have: as at import, or as one successful
    listing of a non-empty folder id left it. *)
Definition well_formed (c : cache) : Prop :=
  c = initial_cache
  \/ exists w folder_id files,
       Str.nonempty folder_id = true /\ c = stored w folder_id files.

Definition is_discover (q : call) : bool :=
  match q with
  | Discover _ => true
  | _ => false
  end.

Definition is_http_get (e : event) : bool :=
  match e with
  | HttpGet _ => true
  | _ => false
  end.

(** The number of outbound requests in a log. *)
Definition requests_in (log : list event) : nat :=
  length (filter (fun e => is_http_get e = true) log).


Definition csv_data_of (r : reply) : option string :=
  match rp_body r with
  | SheetsJson _ csv_data _ _ => Some csv_data
  | _ => None
  end.

Definition first_is_space (s : string) : bool :=
  match s with
  | EmptyString => false
  | String c _ => Str.is_space c
  end.

Fixpoint last_is_space (s : string) : bool :=
  match s with
  | EmptyString => false
  | String c EmptyString => Str.is_space c
  | String _ t => last_is_space t
  end.

(** The upstream answer is a response that [raise_for_status] lets
    through. *)
Definition relayed (o : outcome) : option response :=
  match o with
  | Raised _ => None
  | Returned r => if Spec.error_status r then None else Some r
  end.

End Inv.

(** Further fixtures. *)
Module Fixture2.

Definition blank_lines : string := "

".

(** The first template answers with blank lines only. *)
Definition blank_then_csv : world :=
  Fixture.sheets_world "S"
    [Returned (Fixture.csv_response 200 "text/csv" blank_lines);
     Returned (Fixture.csv_response 200 "text/csv" Fixture.csv_body)].

Definition padded : RawFile := Fixture.image "idP7" "slide_007.jpg".
Definition plain : RawFile := Fixture.image "id7" "slide_7.jpg".

(** The image record of a file known to pass the filter. *)
Definition record_of (file : RawFile) : ImageFile :=
  default {| img_id := ""; img_name := ""; img_index := 0; img_url := "";
             img_proxy_url := ""; img_modified := "" |} (image_of file).

End Fixture2.

(** ** Lemmas on strings and digit runs *)

Section DigitRuns.

Import Spec.

Lemma app_nil (s : string) : EmptyString +:+ s = s.
Proof. reflexivity. Qed.

Lemma app_cons c (s t : string) : String c s +:+ t = String c (s +:+ t).
Proof. reflexivity. Qed.

Lemma split_non_digits s :
  s = take_non_digits s +:+ Re.skip_non_digits s
  /\ any Str.is_digit (take_non_digits s) = false.
Proof.
  induction s as [|c t [IH1 IH2]]; simpl; [done|].
  destruct (Str.is_digit c) eqn:Hc; simpl; [done|].
  rewrite Hc, IH2, app_cons. split; [by rewrite <- IH1 | done].
Qed.

Lemma split_digits s :
  s = Re.take_digits s +:+ drop_digits s
  /\ all Str.is_digit (Re.take_digits s) = true
  /\ starts_with_digit (drop_digits s) = false.
Proof.
  induction s as [|c t (IH1 & IH2 & IH3)]; simpl; [done|].
  destruct (Str.is_digit c) eqn:Hc; simpl; rewrite ?Hc; simpl.
  - by rewrite app_cons, <- IH1.
  - done.
Qed.

Lemma skip_non_digits_app pre s :
  any Str.is_digit pre = false ->
  Re.skip_non_digits (pre +:+ s) = Re.skip_non_digits s.
Proof.
  induction pre as [|c t IH]; [done|].
  rewrite app_cons. simpl.
  intros [Hc Ht]%orb_false_iff. rewrite Hc. by apply IH.
Qed.

Lemma take_digits_app run post :
  all Str.is_digit run = true ->
  starts_with_digit post = false ->
  Re.take_digits (run +:+ post) = run.
Proof.
  intros Hrun Hpost. induction run as [|c t IH].
  - rewrite app_nil. destruct post as [|d post]; simpl in *; [done | by rewrite Hpost].
  - rewrite app_cons. simpl in *. apply andb_true_iff in Hrun as [Hc Ht].
    rewrite Hc. by rewrite IH.
Qed.

Lemma skip_non_digits_head s :
  starts_with_digit s = true -> Re.skip_non_digits s = s.
Proof. destruct s as [|c t]; simpl; [done|]. by intros ->. Qed.

Lemma search_digits_first_run name run :
  Re.search_digits name = Some run <-> first_digit_run name run.
Proof.
  unfold Re.search_digits. split.
  - intros H.
    destruct (split_non_digits name) as [E1 Hpre].
    destruct (split_digits (Re.skip_non_digits name)) as (E2 & Hrun & Hpost).
    destruct (Re.take_digits (Re.skip_non_digits name)) as [|c t] eqn:Et; [done|].
    injection H as <-.
    exists (take_non_digits name), (drop_digits (Re.skip_non_digits name)).
    repeat split; try done. by rewrite <- E2.
  - intros (pre & post & -> & Hpre & Hrun & Hne & Hpost).
    rewrite skip_non_digits_app by done.
    rewrite skip_non_digits_head.
    + rewrite take_digits_app by done. by destruct run.
    + destruct run as [|c t]; [done|]. rewrite app_cons. simpl in *.
      by apply andb_true_iff in Hrun as [-> _].
Qed.

Lemma skip_non_digits_any s :
  any Str.is_digit s = starts_with_digit (Re.skip_non_digits s).
Proof.
  induction s as [|c t IH]; simpl; [done|].
  destruct (Str.is_digit c) eqn:Hc; simpl; by rewrite ?Hc.
Qed.

Lemma search_digits_is_Some name :
  is_Some (Re.search_digits name) <-> any Str.is_digit name = true.
Proof.
  unfold Re.search_digits. rewrite skip_non_digits_any.
  destruct (Re.skip_non_digits name) as [|c t]; simpl.
  - split; [by intros [? ?] | done].
  - destruct (Str.is_digit c); simpl; split; try done.
Qed.

Lemma int_acc_decimal run acc :
  Re.int_acc acc run = acc * 10 ^ Z.of_nat (String.length run) + decimal_value run.
Proof.
  revert acc. induction run as [|c t IH]; intros acc; simpl String.length; simpl Re.int_acc; simpl decimal_value.
  - change (Z.of_nat 0) with 0. rewrite Z.pow_0_r. lia.
  - rewrite IH, Nat2Z.inj_succ, Z.pow_succ_r by lia. ring.
Qed.

Lemma int_decimal run : Re.int run = decimal_value run.
Proof. unfold Re.int. rewrite int_acc_decimal. lia. Qed.

Lemma digit_value_nonneg c : Str.is_digit c = true -> 0 <= Str.digit_value c <= 9.
Proof. unfold Str.is_digit, Str.digit_value. lia. Qed.

Lemma decimal_value_nonneg run :
  all Str.is_digit run = true -> 0 <= decimal_value run.
Proof.
  induction run as [|c t IH]; simpl; [lia|].
  intros [Hc Ht]%andb_true_iff.
  pose proof (digit_value_nonneg c Hc).
  pose proof (IH Ht).
  assert (0 <= 10 ^ Z.of_nat (String.length t)) by (apply Z.pow_nonneg; lia).
  nia.
Qed.

End DigitRuns.

(** ** Lemmas on the filter and the sort *)

Section FilterSort.

Import Spec.

Lemma image_of_Some file img :
  image_of file = Some img -> kept file = true /\ indexes file img.
Proof.
  unfold image_of, kept.
  destruct (Str.startswith _ _); [|done].
  destruct (Re.search_digits (rf_name file)) as [run|] eqn:Hrun; [|done].
  intros [= <-]. simpl.
  pose proof (proj1 (search_digits_first_run _ _) Hrun) as Hfirst.
  split.
  - apply search_digits_is_Some. by exists run.
  - repeat split; simpl.
    + rewrite int_decimal. apply decimal_value_nonneg.
      by destruct Hfirst as (? & ? & ? & ? & ? & ? & ?).
    + exists run. split; [done | apply int_decimal].
Qed.

Lemma image_of_None file : image_of file = None -> kept file = false.
Proof.
  unfold image_of, kept.
  destruct (Str.startswith _ _); [|done].
  destruct (Re.search_digits (rf_name file)) as [run|] eqn:Hrun; [done|].
  intros _. simpl. apply not_true_is_false. intros Hany.
  apply search_digits_is_Some in Hany as [? ?]. congruence.
Qed.

Lemma omap_image_of_kept files :
  Forall2 indexes (filter (fun file => kept file = true) files)
          (omap image_of files).
Proof.
  induction files as [|file files IH]; simpl; [constructor|].
  destruct (image_of file) as [img|] eqn:Himg.
  - apply image_of_Some in Himg as [Hk Hi].
    rewrite filter_cons_True by done. by constructor.
  - apply image_of_None in Himg.
    rewrite filter_cons_False by congruence. done.
Qed.

Lemma insert_by_index_perm x l : insert_by_index x l ≡ₚ x :: l.
Proof.
  induction l as [|y l IH]; simpl; [done|].
  destruct (img_index x <=? img_index y); [done|].
  rewrite IH. apply Permutation_swap.
Qed.

Lemma sort_by_index_perm l : sort_by_index l ≡ₚ l.
Proof.
  induction l as [|x l IH]; simpl; [done|].
  by rewrite insert_by_index_perm, IH.
Qed.

Lemma insert_by_index_hd a x l :
  index_le a x -> HdRel index_le a l -> HdRel index_le a (insert_by_index x l).
Proof.
  intros Hax Hal. destruct l as [|y l]; simpl.
  - by constructor.
  - destruct (img_index x <=? img_index y); constructor; [done|].
    by inversion Hal.
Qed.

Lemma insert_by_index_sorted x l :
  Sorted index_le l -> Sorted index_le (insert_by_index x l).
Proof.
  induction 1 as [|y l Hl IH Hy]; simpl.
  - by repeat constructor.
  - destruct (img_index x <=? img_index y) eqn:Hxy.
    + constructor; [by constructor|]. constructor. unfold index_le. lia.
    + constructor; [done|]. apply insert_by_index_hd; [|done].
      unfold index_le. lia.
Qed.

Lemma sort_by_index_sorted l : Sorted index_le (sort_by_index l).
Proof.
  induction l as [|x l IH]; simpl; [constructor|].
  by apply insert_by_index_sorted.
Qed.

(** Insertion never moves [x] behind a record of the same index. *)
Lemma with_index_insert k x l :
  with_index k (insert_by_index x l) = with_index k (x :: l).
Proof.
  unfold with_index. induction l as [|y l IH]; simpl; [done|].
  destruct (img_index x <=? img_index y) eqn:Hxy; [done|].
  rewrite (filter_cons _ y), IH, !(filter_cons _ x), (filter_cons _ y).
  repeat case_decide; try done. lia.
Qed.

Lemma with_index_sort k l : with_index k (sort_by_index l) = with_index k l.
Proof.
  induction l as [|x l IH]; simpl; [done|].
  rewrite with_index_insert. unfold with_index in *.
  by rewrite !(filter_cons _ x), IH.
Qed.

Lemma sort_by_index_stable l : stable_sort_of l (sort_by_index l).
Proof.
  split; [apply sort_by_index_sorted|].
  split; [apply sort_by_index_perm|].
  intros k. apply with_index_sort.
Qed.

Lemma with_index_cons k x l :
  with_index k (x :: l)
  = if decide (img_index x = k) then x :: with_index k l else with_index k l.
Proof. unfold with_index. by rewrite filter_cons. Qed.

Lemma with_index_elem k x l : x ∈ with_index k l -> x ∈ l /\ img_index x = k.
Proof. unfold with_index. rewrite list_elem_of_filter. tauto. Qed.

(** The head of a sorted list carries the least index. *)
Lemma sorted_head_least x l y :
  Sorted index_le (x :: l) -> y ∈ x :: l -> img_index x <= img_index y.
Proof.
  intros Hs Hy.
  apply Sorted_StronglySorted in Hs; [|intros a b c; unfold index_le; lia].
  apply StronglySorted_inv in Hs as [_ Hall].
  apply elem_of_cons in Hy as [->|Hy]; [lia|].
  rewrite Forall_forall in Hall. by apply Hall.
Qed.

(** Two sorted lists with the same records per index, in the same order,
    are equal: the result of a stable sort is determined, whatever the
    algorithm. *)
Lemma stable_sort_unique out1 out2 :
  Sorted index_le out1 -> Sorted index_le out2 ->
  (forall k, with_index k out1 = with_index k out2) ->
  out1 = out2.
Proof.
  revert out2. induction out1 as [|x t1 IH]; intros out2 Hs1 Hs2 Hk.
  - destruct out2 as [|y t2]; [done|].
    specialize (Hk (img_index y)). rewrite with_index_cons, decide_True in Hk by done.
    done.
  - destruct out2 as [|y t2].
    { specialize (Hk (img_index x)).
      rewrite with_index_cons, decide_True in Hk by done. done. }
    assert (img_index x <= img_index y) as Hxy.
    { apply (sorted_head_least x t1); [done|].
      apply (with_index_elem (img_index y)). rewrite Hk, with_index_cons.
      rewrite decide_True by done. apply elem_of_cons. by left. }
    assert (img_index y <= img_index x) as Hyx.
    { apply (sorted_head_least y t2); [done|].
      apply (with_index_elem (img_index x)). rewrite <- Hk, with_index_cons.
      rewrite decide_True by done. apply elem_of_cons. by left. }
    assert (img_index x = img_index y) as Hidx by lia.
    pose proof (Hk (img_index x)) as Hhead.
    rewrite !with_index_cons, !decide_True in Hhead by done.
    injection Hhead as -> Htail.
    f_equal. apply IH.
    + by apply Sorted_inv in Hs1 as [? _].
    + by apply Sorted_inv in Hs2 as [? _].
    + intros k. specialize (Hk k). rewrite !with_index_cons in Hk.
      destruct (decide (img_index y = k)); [by injection Hk | done].
Qed.

(** Whatever stable ascending sort Python runs, its result is the one of
    [sort_by_index]. *)
Lemma stable_sort_is_sort_by_index l out :
  stable_sort_of l out -> out = sort_by_index l.
Proof.
  intros (Hs & _ & Hk).
  apply stable_sort_unique; [done | apply sort_by_index_sorted |].
  intros k. by rewrite Hk, with_index_sort.
Qed.

End FilterSort.

(** ** Lemmas on the mapping and on the handlers *)

Section Handlers.

Import Spec.

Variable key : string.

Lemma fold_mapping_lookup l (m : gmap Z Projection) n :
  foldl (fun m f => <[img_index f := projection f]> m) m l !! n
  = match last (with_index n l) with
    | Some f => Some (projection f)
    | None => m !! n
    end.
Proof.
  revert m. unfold with_index.
  induction l as [|x l IH]; intros m; simpl; [done|].
  rewrite IH, filter_cons. case_decide as Hx.
  - rewrite last_cons. destruct (last _); [done|].
    subst n. apply lookup_insert_eq.
  - destruct (last _); [done|]. by apply lookup_insert_ne.
Qed.

(** The mapping sends an index to the last record that carries it. *)
Lemma image_mapping_lookup l n :
  image_mapping l !! n = projection <$> last (with_index n l).
Proof.
  unfold image_mapping. rewrite fold_mapping_lookup.
  destruct (last _); [done | apply lookup_empty].
Qed.

Lemma image_mapping_sorted files n :
  image_mapping (filter_and_index files) !! n
  = projection <$> last (with_index n (omap image_of files)).
Proof.
  rewrite image_mapping_lookup. unfold filter_and_index.
  by rewrite with_index_sort.
Qed.

Lemma get_drive_files_eq w folder_id c :
  get_drive_files key w folder_id c =
  if cache_hit c folder_id (w_time w) then (c_data c, c, [CacheRead])
  else
    match listing (w_http w (drive_request key folder_id)) with
    | None => (None, c, [CacheRead; HttpGet (drive_request key folder_id)])
    | Some files =>
        (Some (filter_and_index files), stored w folder_id files,
         [CacheRead; HttpGet (drive_request key folder_id); CacheWrite])
    end.
Proof.
  unfold get_drive_files, bind, read_cache, http_get, write_cache, ret, listing.
  destruct (cache_hit c folder_id (w_time w)); [done|].
  destruct (w_http w (drive_request key folder_id)) as [msg|r]; [done|].
  destruct (raise_for_status r); [done|].
  by destruct (json_files r).
Qed.

Lemma discover_images_eq w folder_id c :
  Str.nonempty folder_id = true ->
  discover_images key w folder_id c =
  let '(files, c', log) := get_drive_files key w folder_id c in
  (match files with
   | Some files => discovered w folder_id files
   | None => fetch_failed
   end, c', log).
Proof.
  intros Hne. unfold discover_images, bind. rewrite Hne. simpl.
  destruct (get_drive_files key w folder_id c) as [[[files|] c'] log];
    simpl; by rewrite app_nil_r.
Qed.

Lemma cache_hit_data c folder_id now :
  cache_hit c folder_id now = true ->
  exists x l, c_data c = Some (x :: l) /\ c_folder_id c = Some folder_id.
Proof.
  unfold cache_hit. intros [[Hd Hf]%andb_true_iff _]%andb_true_iff.
  apply bool_decide_eq_true in Hf.
  destruct (c_data c) as [[|x l]|]; try done. by exists x, l.
Qed.

Lemma Qltb_lt x y : Qltb x y = true <-> (x < y)%Q.
Proof.
  unfold Qltb. rewrite negb_true_iff, <- not_true_iff_false, Qle_bool_iff.
  split; [apply Qnot_le_lt | apply Qlt_not_le].
Qed.

Lemma cache_hit_stored w folder_id files now :
  filter_and_index files <> [] ->
  (now - w_time w < CACHE_DURATION)%Q ->
  cache_hit (stored w folder_id files) folder_id now = true.
Proof.
  intros Hne Hlt. unfold cache_hit, stored. simpl.
  rewrite bool_decide_eq_true_2 by done.
  apply Qltb_lt in Hlt. rewrite Hlt.
  by destruct (filter_and_index files).
Qed.

Lemma with_index_none n post :
  Forall (fun file => forall img, image_of file = Some img -> img_index img <> n) post ->
  with_index n (omap image_of post) = [].
Proof.
  unfold with_index. induction 1 as [|file post Hfile _ IH]; simpl; [done|].
  destruct (image_of file) as [img|] eqn:Himg; [|done].
  rewrite filter_cons_False; [done|]. by apply Hfile.
Qed.

Lemma discover_images_hit w folder_id c :
  Str.nonempty folder_id = true ->
  cache_hit c folder_id (w_time w) = true ->
  discover_images key w folder_id c
  = (discovered w folder_id (default [] (c_data c)), c, [CacheRead]).
Proof.
  intros Hne Hhit.
  rewrite discover_images_eq, get_drive_files_eq, Hhit by done.
  apply cache_hit_data in Hhit as (x & l & -> & _). done.
Qed.

Lemma discover_images_miss_trace w folder_id c :
  Str.nonempty folder_id = true ->
  cache_hit c folder_id (w_time w) = false ->
  HttpGet (drive_request key folder_id) ∈ trace (discover_images key w folder_id c).
Proof.
  intros Hne Hmiss.
  rewrite discover_images_eq, get_drive_files_eq, Hmiss by done.
  destruct (listing _); simpl; rewrite !elem_of_cons; auto.
Qed.

(** A successful discovery leaves the cache holding the requested
    folder. *)
Lemma discover_images_ok_folder w folder_id c :
  rp_status (result (discover_images key w folder_id c)) = 200 ->
  Str.nonempty folder_id = true
  /\ c_folder_id (final_cache (discover_images key w folder_id c)) = Some folder_id.
Proof.
  destruct (Str.nonempty folder_id) eqn:Hne.
  2:{ destruct folder_id; [|done]. done. }
  rewrite discover_images_eq, get_drive_files_eq by done.
  destruct (cache_hit c folder_id (w_time w)) eqn:Hhit.
  - apply cache_hit_data in Hhit as (x & l & Hd & Hf). by rewrite Hd.
  - by destruct (listing _).
Qed.

Lemma cache_hit_other_folder c folder_id other now :
  c_folder_id c = Some other -> other <> folder_id ->
  cache_hit c folder_id now = false.
Proof.
  intros Hc Hne. unfold cache_hit. rewrite Hc.
  rewrite bool_decide_eq_false_2 by congruence.
  by rewrite andb_false_r.
Qed.

Lemma discover_all_hits ws w1 folder_id files :
  Str.nonempty folder_id = true ->
  filter_and_index files <> [] ->
  Forall (fun w => (w_time w - w_time w1 < CACHE_DURATION)%Q) ws ->
  discover_all key ws folder_id (stored w1 folder_id files)
  = stored w1 folder_id files.
Proof.
  intros Hne Hfiles. unfold discover_all.
  induction 1 as [|w ws Hw _ IH]; simpl; [done|].
  rewrite discover_images_hit; [done | done |].
  by apply cache_hit_stored.
Qed.

(** An empty image list is stored by [get_drive_files] but never served:
    [cache['data']] is then falsy. *)
Lemma cache_hit_empty_data c folder_id now :
  c_data c = Some [] -> cache_hit c folder_id now = false.
Proof. intros Hd. unfold cache_hit. by rewrite Hd. Qed.

Lemma empty_listing_refetched w folder_id c :
  Str.nonempty folder_id = true ->
  c_data c = Some [] ->
  HttpGet (drive_request key folder_id) ∈ trace (discover_images key w folder_id c).
Proof.
  intros Hne Hd. apply discover_images_miss_trace; [done|].
  by apply cache_hit_empty_data.
Qed.

Lemma with_index_last n l b post :
  img_index b = n ->
  with_index n post = [] ->
  last (with_index n (l ++ b :: post)) = Some b.
Proof.
  unfold with_index. intros Hb Hpost.
  rewrite filter_app, filter_cons_True, Hpost by done.
  apply last_snoc.
Qed.

End Handlers.

(** ** Lemmas on the sheet fetcher *)

Section Sheets.

Import Spec.

Lemma raise_for_status_None r :
  raise_for_status r = None <-> no_error_status r = true.
Proof.
  unfold raise_for_status, no_error_status, error_status.
  destruct (400 <=? status_code r) eqn:H4, (status_code r <? 500) eqn:H5,
           (500 <=? status_code r) eqn:H6, (status_code r <? 600) eqn:H7;
    simpl; split; (done || lia).
Qed.

Lemma raise_for_status_Some r :
  is_Some (raise_for_status r) <-> error_status r = true.
Proof.
  rewrite <- not_eq_None_Some, raise_for_status_None.
  unfold no_error_status. by destruct (error_status r).
Qed.

Lemma attempt_passes w sheets_url :
  attempt (w_http w (sheets_request sheets_url))
  = csv_text_of <$> template_passes no_error_status w sheets_url.
Proof.
  unfold attempt, template_passes, passes.
  destruct (w_http w (sheets_request sheets_url)) as [msg|r]; [done|].
  destruct (html_typed r); [done|]. simpl.
  destruct (raise_for_status r) as [e|] eqn:He.
  - assert (no_error_status r = false) as ->; [|done].
    apply not_true_is_false. rewrite <- raise_for_status_None. congruence.
  - apply raise_for_status_None in He. rewrite He. simpl.
    by destruct (looks_like_csv _).
Qed.

Lemma try_formats_none w urls c :
  Forall (fun u => template_passes no_error_status w u = None) urls ->
  try_formats w urls c = (None, c, requests_of urls).
Proof.
  induction 1 as [|u urls Hu _ IH]; [done|].
  simpl. unfold bind, http_get. rewrite attempt_passes, Hu. simpl.
  by rewrite IH.
Qed.

Lemma try_formats_first w before u after r c :
  Forall (fun u => template_passes no_error_status w u = None) before ->
  template_passes no_error_status w u = Some r ->
  try_formats w (before ++ u :: after) c
  = (Some (csv_text_of r, u), c, requests_of (before ++ [u])).
Proof.
  intros Hbefore Hu.
  induction Hbefore as [|v before Hv _ IH]; simpl; unfold bind, http_get.
  - by rewrite attempt_passes, Hu.
  - rewrite attempt_passes, Hv. simpl. by rewrite IH.
Qed.

Lemma try_formats_result w urls c :
  (exists csv_text u log,
      u ∈ urls /\ try_formats w urls c = (Some (csv_text, u), c, log))
  \/ try_formats w urls c = (None, c, requests_of urls).
Proof.
  induction urls as [|u urls IH]; [by right|].
  simpl. unfold bind, http_get.
  destruct (attempt (w_http w (sheets_request u))) as [csv_text|].
  - left. exists csv_text, u, [HttpGet (sheets_request u)].
    split; [apply elem_of_cons; by left | done].
  - destruct IH as [(csv_text & v & log & Hv & ->) | ->].
    + left. exists csv_text, v, (HttpGet (sheets_request u) :: log).
      split; [apply elem_of_cons; by right | done].
    + by right.
Qed.

Lemma get_sheets_data_eq w sheet_id c :
  get_sheets_data w sheet_id c =
  let '(found, c', log) := try_formats w (url_formats sheet_id) c in
  (match found with
   | Some (csv_text, sheets_url) => sheets_found w csv_text sheets_url
   | None => sheets_failed
   end, c', log).
Proof.
  unfold get_sheets_data, bind.
  destruct (try_formats w (url_formats sheet_id) c) as [[[[t u]|] c'] log];
    simpl; by rewrite app_nil_r.
Qed.

End Sheets.

(** * The claims *)

(** C1, as the claim states it, fails: the thirty seconds run from the
    fetch that filled the cache, not from the first of the two calls.  The
    cache was filled at time 0; a call at time 20 is served from it; a call
    at time 40, twenty seconds later, finds it expired and lists the folder
    again. *)
Lemma second_call_refetches_counterexample :
  ~ (forall (key : string) (w1 w2 : world) (folder_id : string) (c : cache),
        rp_status (result (discover_images key w1 folder_id c)) = 200 ->
        (w_time w1 <= w_time w2)%Q ->
        (w_time w2 - w_time w1 < CACHE_DURATION)%Q ->
        Spec.images_of
          (result (discover_images key w2 folder_id
                     (final_cache (discover_images key w1 folder_id c))))
        = Spec.images_of (result (discover_images key w1 folder_id c))
        /\ trace (discover_images key w2 folder_id
                    (final_cache (discover_images key w1 folder_id c)))
           = [CacheRead]).
Proof.
  intros H.
  destruct (H "k" (Fixture.listing_world 20 [Fixture.file_A])
              (Fixture.listing_world 40 [Fixture.file_A])
              "folder"
              (stored (Fixture.listing_world 0 [Fixture.file_A]) "folder" [Fixture.file_A]))
    as [_ Htrace].
  - reflexivity.
  - vm_compute. discriminate.
  - reflexivity.
  - vm_compute in Htrace. discriminate Htrace.
Qed.

(** C1, amended.  For every folder id, if a [discover] call succeeds by
    listing the folder upstream and finds at least one image, and a later
    [discover] call for the same folder is made strictly less than 30
    seconds after it, with nothing but [discover] calls for that folder
    (each within the same 30 seconds) in between, then the later call
    returns the same [images] mapping and makes no upstream call: it only
    reads the cache. *)
Theorem discover_served_from_cache
    (key : string) (w1 : world) (ws : list world) (w2 : world)
    (folder_id : string) (c0 c1 : cache) (log1 : list event)
    (images : gmap Z Projection) (total : Z) (stamp : string) :
  discover_images key w1 folder_id c0
  = ({| rp_body := DiscoverJson true images total folder_id stamp;
        rp_status := 200 |}, c1, log1) ->
  HttpGet (drive_request key folder_id) ∈ log1 ->
  0 < total ->
  Forall (fun w => (w_time w - w_time w1 < CACHE_DURATION)%Q) (ws ++ [w2]) ->
  discover_images key w2 folder_id (Spec.discover_all key ws folder_id c1)
  = ({| rp_body := DiscoverJson true images total folder_id (w_isoformat w2);
        rp_status := 200 |}, c1, [CacheRead]).
Proof.
  intros Hfirst Hget Htotal Hwindow.
  assert (Str.nonempty folder_id = true) as Hne.
  { destruct folder_id; [|done]. discriminate Hfirst. }
  rewrite discover_images_eq, get_drive_files_eq in Hfirst by done.
  destruct (cache_hit c0 folder_id (w_time w1)).
  { injection Hfirst as _ _ <-.
    apply elem_of_cons in Hget as [?|Hget]; [done|]. by apply elem_of_nil in Hget. }
  destruct (Spec.listing _) as [files|]; [|discriminate Hfirst].
  unfold discovered in Hfirst. injection Hfirst as <- <- <- <- <-.
  assert (filter_and_index files <> []) as Hfiles.
  { intros Hnil. rewrite Hnil in Htotal. simpl in Htotal. lia. }
  apply Forall_app in Hwindow as [Hws Hw2].
  apply Forall_inv in Hw2.
  rewrite (discover_all_hits key ws w1) by done.
  rewrite discover_images_hit; [done | done |].
  by apply cache_hit_stored.
Qed.

Lemma discover_served_from_cache_witness :
  discover_images "k" (Fixture.failing_world 29 "down") "folder"
    (Spec.discover_all "k" [Fixture.failing_world 10 "down"] "folder"
       (stored (Fixture.listing_world 0 [Fixture.file_A; Fixture.file_B]) "folder"
          [Fixture.file_A; Fixture.file_B]))
  = ({| rp_body :=
          DiscoverJson true
            (image_mapping (filter_and_index [Fixture.file_A; Fixture.file_B]))
            2 "folder" "2024-01-01T00:00:00";
        rp_status := 200 |},
     stored (Fixture.listing_world 0 [Fixture.file_A; Fixture.file_B]) "folder"
       [Fixture.file_A; Fixture.file_B],
     [CacheRead]).
Proof.
  apply (discover_served_from_cache "k"
           (Fixture.listing_world 0 [Fixture.file_A; Fixture.file_B])
           [Fixture.failing_world 10 "down"] (Fixture.failing_world 29 "down")
           "folder" initial_cache _
           [CacheRead; HttpGet (drive_request "k" "folder"); CacheWrite]
           _ 2 "2024-01-01T00:00:00").
  - reflexivity.
  - apply elem_of_cons. right. apply elem_of_cons. by left.
  - reflexivity.
  - repeat constructor.
Defined.

(** C2.  When the upstream listing holds two image records [A] then [B]
    with the same extracted index [n], [B] being the later one (no record
    after [B] yields [n]), the [images] mapping of the discovery result
    has [B]'s projection at key [n], not [A]'s. *)
Theorem discover_later_record_wins
    (key : string) (w : world) (folder_id : string) (c : cache) (r : response)
    (pre mid post : list RawFile) (A B : RawFile) (a b : ImageFile) (n : Z) :
  Str.nonempty folder_id = true ->
  cache_hit c folder_id (w_time w) = false ->
  w_http w (drive_request key folder_id) = Returned r ->
  raise_for_status r = None ->
  json_files r = Some (pre ++ A :: mid ++ B :: post) ->
  image_of A = Some a -> img_index a = n ->
  image_of B = Some b -> img_index b = n ->
  Forall (fun file => forall img, image_of file = Some img -> img_index img <> n) post ->
  exists images total,
    result (discover_images key w folder_id c)
    = {| rp_body := DiscoverJson true images total folder_id (w_isoformat w);
         rp_status := 200 |}
    /\ images !! n = Some (projection b)
    /\ (projection a <> projection b -> images !! n <> Some (projection a)).
Proof.
  intros Hne Hmiss Hget Hok Hjson HA Ha HB Hb Hpost.
  rewrite discover_images_eq, get_drive_files_eq, Hmiss by done.
  unfold Spec.listing. rewrite Hget, Hok, Hjson. simpl.
  eexists _, _. split; [reflexivity|].
  assert (image_mapping (filter_and_index (pre ++ A :: mid ++ B :: post)) !! n
          = Some (projection b)) as Hn.
  { rewrite image_mapping_sorted.
    replace (pre ++ A :: mid ++ B :: post) with ((pre ++ A :: mid) ++ B :: post)
      by (by rewrite <- app_assoc).
    rewrite (omap_app _ (pre ++ A :: mid)). simpl. rewrite HB. simpl.
    rewrite (with_index_last n _ b); [done | done |].
    by apply with_index_none. }
  split; [done|]. rewrite Hn. congruence.
Qed.

Lemma discover_later_record_wins_witness :
  exists images total,
    result (discover_images "k"
              (Fixture.listing_world 5 [Fixture.file_C; Fixture.file_A; Fixture.pdf; Fixture.file_B])
              "folder" initial_cache)
    = {| rp_body := DiscoverJson true images total "folder" "2024-01-01T00:00:00";
         rp_status := 200 |}
    /\ images !! 3 = Some {| pj_id := "idB"; pj_name := "3-new.jpg";
                             pj_url := "https://drive.google.com/uc?id=idB&export=download";
                             pj_proxy_url := "/api/proxy-image/idB";
                             pj_modified := "2024-01-01T00:00:00Z" |}.
Proof.
  destruct (discover_later_record_wins "k"
              (Fixture.listing_world 5 [Fixture.file_C; Fixture.file_A; Fixture.pdf; Fixture.file_B])
              "folder" initial_cache
              (Fixture.ok_response [Fixture.file_C; Fixture.file_A; Fixture.pdf; Fixture.file_B])
              [Fixture.file_C] [Fixture.pdf] [] Fixture.file_A Fixture.file_B
              (default {| img_id := ""; img_name := ""; img_index := 0; img_url := "";
                          img_proxy_url := ""; img_modified := "" |} (image_of Fixture.file_A))
              (default {| img_id := ""; img_name := ""; img_index := 0; img_url := "";
                          img_proxy_url := ""; img_modified := "" |} (image_of Fixture.file_B))
              3)
    as (images & total & Hres & Hn & _);
    [reflexivity | reflexivity | reflexivity | reflexivity | reflexivity
    | reflexivity | reflexivity | reflexivity | reflexivity | constructor |].
  exists images, total. split; [exact Hres | exact Hn].
Defined.

(** C3.  For every sequence of raw file records, the filter/index step
    outputs exactly the records whose [mimeType] starts with [image/] and
    whose name contains a decimal digit, each with the index denoted by the
    first maximal run of digits of its name (a non-negative integer; a
    name without digit drops the record, nothing raises), sorted
    ascending by index by a stable sort: records of equal index keep the
    upstream order. *)
Theorem filter_and_index_correct (files : list RawFile) :
  exists indexed,
    Forall2 Spec.indexes (filter (fun file => Spec.kept file = true) files) indexed
    /\ Spec.stable_sort_of indexed (filter_and_index files).
Proof.
  exists (omap image_of files). split.
  - apply omap_image_of_kept.
  - apply sort_by_index_stable.
Qed.

(** C4, as the claim states it, fails: a [discover] call that fails leaves
    the cache as it was.  The middle call for the other folder times out, so
    the final call for the first folder is served from the cache. *)
Lemma failed_middle_call_counterexample :
  ~ (forall (key : string) (w1 w2 w3 : world) (f1 f2 : string) (c0 : cache),
        f1 <> f2 ->
        HttpGet (drive_request key f1)
        ∈ trace (discover_images key w3 f1
                   (final_cache (discover_images key w2 f2
                      (final_cache (discover_images key w1 f1 c0)))))).
Proof.
  intros H.
  specialize (H "k" (Fixture.listing_world 0 [Fixture.file_A])
                (Fixture.failing_world 1 "Read timed out")
                (Fixture.listing_world 2 [Fixture.file_A])
                "folder" "other" initial_cache).
  assert ("folder" <> "other") as Hne by discriminate.
  specialize (H Hne). vm_compute in H.
  apply elem_of_cons in H as [H|H]; [discriminate H|].
  by apply elem_of_nil in H.
Qed.

(** C4, amended.  The cache is a single slot: for every cache state and
    every requested folder id different from the stored one, the lookup is a
    miss, whatever the age of the entry; consequently, for all folder ids
    [f1 <> f2] with [f1] not empty, in the sequence [discover(f1)],
    [discover(f2)], [discover(f1)], whenever the middle call succeeds the
    final call makes a fresh upstream listing call. *)
Theorem single_slot_eviction
    (key : string) (w1 w2 w3 : world) (f1 f2 : string) (c c0 : cache) (now : Q) :
  (c_folder_id c <> Some f1 -> lookup_cache c f1 now = None)
  /\ (f1 <> f2 ->
      Str.nonempty f1 = true ->
      rp_status (result (discover_images key w2 f2
                           (final_cache (discover_images key w1 f1 c0)))) = 200 ->
      HttpGet (drive_request key f1)
      ∈ trace (discover_images key w3 f1
                 (final_cache (discover_images key w2 f2
                    (final_cache (discover_images key w1 f1 c0)))))).
Proof.
  split.
  - intros Hc. unfold lookup_cache, cache_hit.
    rewrite bool_decide_eq_false_2 by done. by rewrite andb_false_r.
  - intros Hne Hf1 Hok.
    apply discover_images_ok_folder in Hok as [_ Hfolder].
    apply discover_images_miss_trace; [done|].
    by apply (cache_hit_other_folder _ _ f2).
Qed.

Lemma single_slot_eviction_witness :
  lookup_cache (stored (Fixture.listing_world 0 [Fixture.file_A]) "other" [Fixture.file_A])
    "folder" 1 = None
  /\ HttpGet (drive_request "k" "folder")
     ∈ trace (discover_images "k" (Fixture.listing_world 2 [Fixture.file_A]) "folder"
                (final_cache (discover_images "k" (Fixture.listing_world 1 [Fixture.file_B]) "other"
                   (final_cache (discover_images "k" (Fixture.listing_world 0 [Fixture.file_A])
                                   "folder" initial_cache))))).
Proof.
  split.
  - apply (proj1 (single_slot_eviction "k"
                    (Fixture.listing_world 0 [Fixture.file_A])
                    (Fixture.listing_world 1 [Fixture.file_B])
                    (Fixture.listing_world 2 [Fixture.file_A])
                    "folder" "other"
                    (stored (Fixture.listing_world 0 [Fixture.file_A]) "other" [Fixture.file_A])
                    initial_cache 1)).
    discriminate.
  - apply (proj2 (single_slot_eviction "k"
                    (Fixture.listing_world 0 [Fixture.file_A])
                    (Fixture.listing_world 1 [Fixture.file_B])
                    (Fixture.listing_world 2 [Fixture.file_A])
                    "folder" "other" initial_cache initial_cache 0)).
    + discriminate.
    + reflexivity.
    + reflexivity.
Defined.

(** C5.  For an empty folder id, [discover_images] answers at once with
    the 400 error envelope: no upstream call, no cache read, no cache
    write. *)
Theorem discover_empty_folder_id (key : string) (w : world) (c : cache) :
  discover_images key w "" c
  = ({| rp_body := ErrorJson "No folder ID provided"; rp_status := 400 |}, c, []).
Proof. reflexivity. Qed.

(** C6, as the claim states it, fails: a response with a status that is
    neither a success (2xx) nor an error (4xx, 5xx) is accepted.  Template 1
    answers 300 with a CSV body, template 2 answers 200: the claim names
    template 2, the code returns template 1. *)
Lemma first_success_status_counterexample :
  ~ (forall (w : world) (sheet_id : string) (c : cache) (i : nat)
            (sheets_url : string) (r : response),
        url_formats sheet_id !! i = Some sheets_url ->
        Spec.template_passes Spec.success_status w sheets_url = Some r ->
        (forall j u, (j < i)%nat -> url_formats sheet_id !! j = Some u ->
                     Spec.template_passes Spec.success_status w u = None) ->
        result (get_sheets_data w sheet_id c)
        = Spec.sheets_found w (csv_text_of r) sheets_url).
Proof.
  intros H.
  specialize (H Fixture.choices_then_csv "S" initial_cache 1%nat
                "https://docs.google.com/spreadsheets/d/S/export?format=csv&gid=0"
                (Fixture.csv_response 200 "text/csv" Fixture.csv_body)
                eq_refl eq_refl).
  assert (forall j u, (j < 1)%nat -> url_formats "S" !! j = Some u ->
            Spec.template_passes Spec.success_status Fixture.choices_then_csv u = None)
    as Hbefore.
  { intros [|j] u Hj; [|lia]. by intros [= <-]. }
  specialize (H Hbefore). vm_compute in H. discriminate H.
Qed.

(** C6, amended.  [get_sheets_data] tries the four URL templates in their
    listed order and returns success at the first one whose response is not
    HTML-typed, has a status outside the 4xx and 5xx ranges, and decodes to
    non-empty text with a comma or a newline: [csv_data] is that text,
    [url_used] that template's URL, and no later template is requested. *)
Theorem get_sheets_data_first_passing
    (w : world) (sheet_id : string) (c : cache) (i : nat)
    (sheets_url : string) (r : response) :
  url_formats sheet_id !! i = Some sheets_url ->
  Spec.template_passes Spec.no_error_status w sheets_url = Some r ->
  (forall j u, (j < i)%nat -> url_formats sheet_id !! j = Some u ->
               Spec.template_passes Spec.no_error_status w u = None) ->
  get_sheets_data w sheet_id c
  = (Spec.sheets_found w (csv_text_of r) sheets_url, c,
     Spec.requests_of (take (S i) (url_formats sheet_id))).
Proof.
  intros Hi Hpass Hbefore.
  rewrite get_sheets_data_eq.
  rewrite <- (take_drop_middle _ _ _ Hi) at 1.
  rewrite (try_formats_first w _ _ _ r); [| |done].
  - by rewrite (take_S_r _ _ _ Hi).
  - apply Forall_lookup_2. intros j u Hj.
    apply lookup_take_Some in Hj as [Hj Hlt]. by apply (Hbefore j).
Qed.

Lemma get_sheets_data_first_passing_witness :
  get_sheets_data Fixture.html_then_csv "S" initial_cache
  = (Spec.sheets_found Fixture.html_then_csv Fixture.csv_body
       "https://docs.google.com/spreadsheets/d/S/export?format=csv&gid=0",
     initial_cache,
     Spec.requests_of
       ["https://docs.google.com/spreadsheets/d/e/S/pub?output=csv";
        "https://docs.google.com/spreadsheets/d/S/export?format=csv&gid=0"]).
Proof.
  refine (get_sheets_data_first_passing Fixture.html_then_csv "S" initial_cache 1%nat
            "https://docs.google.com/spreadsheets/d/S/export?format=csv&gid=0"
            (Fixture.csv_response 200 "text/csv" Fixture.csv_body) eq_refl eq_refl _).
  intros [|j] u Hj; [|lia]. intros [= <-]. reflexivity.
Defined.

(** C7.  [get_sheets_data] always returns a reply: either the success
    envelope or the failure envelope.  When all four templates fail, the
    reply is the 500 envelope with [success = false], the message that all
    URL formats failed and [tried_formats = 4], whatever the individual
    failures were. *)
Theorem get_sheets_data_never_raises (w : world) (sheet_id : string) (c : cache) :
  ((exists csv_text sheets_url,
      sheets_url ∈ url_formats sheet_id
      /\ result (get_sheets_data w sheet_id c) = Spec.sheets_found w csv_text sheets_url)
   \/ result (get_sheets_data w sheet_id c) = Spec.sheets_failed)
  /\ (Forall (fun u => Spec.template_passes Spec.no_error_status w u = None)
        (url_formats sheet_id) ->
      get_sheets_data w sheet_id c
      = ({| rp_body :=
              SheetsFailedJson false
                "All URL formats failed. Make sure sheet is published to web as CSV" 4;
            rp_status := 500 |}, c,
         Spec.requests_of (url_formats sheet_id))).
Proof.
  split.
  - rewrite get_sheets_data_eq.
    destruct (try_formats_result w (url_formats sheet_id) c)
      as [(csv_text & u & log & Hu & ->) | ->]; [left | by right].
    by exists csv_text, u.
  - intros Hall. rewrite get_sheets_data_eq, try_formats_none; done.
Qed.

Lemma get_sheets_data_never_raises_witness :
  get_sheets_data Fixture.all_failing "S" initial_cache
  = (Spec.sheets_failed, initial_cache, Spec.requests_of (url_formats "S")).
Proof.
  apply (get_sheets_data_never_raises Fixture.all_failing "S" initial_cache).
  repeat constructor.
Defined.

(** C8, as the claim states it, fails for the listing: the exception is
    only printed, and the envelope carries a fixed text.  The listing
    request times out with a message that the reply does not contain. *)
Lemma listing_failure_message_counterexample :
  ~ (forall (key : string) (w : world) (folder_id : string) (c : cache) (msg : string),
        Str.nonempty folder_id = true ->
        cache_hit c folder_id (w_time w) = false ->
        Spec.fails_with (w_http w (drive_request key folder_id)) msg ->
        exists error,
          result (discover_images key w folder_id c) = Spec.error_reply 500 error
          /\ Str.contains msg error = true).
Proof.
  intros H.
  destruct (H "k" (Fixture.failing_world 0 "Read timed out") "folder" initial_cache
              "Read timed out" eq_refl eq_refl (Spec.fw_raised _))
    as (error & Hreply & Hmsg).
  vm_compute in Hreply. injection Hreply as <-.
  vm_compute in Hmsg. discriminate Hmsg.
Qed.

(** C8, amended.  When the upstream listing fetch fails, the reply of
    [discover_images] is the 500 JSON envelope with the fixed text
    ['Failed to fetch files from Google Drive']; when the image fetch of
    [proxy_image] fails, the reply is the 500 JSON envelope whose error is
    the message of the failing exception. *)
Theorem upstream_failure_replies
    (key : string) (w : world) (c : cache) (folder_id file_id msg : string) :
  (Str.nonempty folder_id = true ->
   cache_hit c folder_id (w_time w) = false ->
   Spec.listing_fails Spec.error_status (w_http w (drive_request key folder_id)) ->
   result (discover_images key w folder_id c)
   = Spec.error_reply 500 "Failed to fetch files from Google Drive")
  /\ (Spec.fails_with (w_http w (proxy_request file_id)) msg ->
      result (proxy_image w file_id c) = Spec.error_reply 500 msg).
Proof.
  split.
  - intros Hne Hmiss Hfail.
    rewrite discover_images_eq, get_drive_files_eq, Hmiss by done.
    assert (Spec.listing (w_http w (drive_request key folder_id)) = None) as ->; [|done].
    unfold Spec.listing.
    destruct Hfail as [e | r Hbad | r Hbody]; [done | |].
    + apply raise_for_status_Some in Hbad as [e ->]. done.
    + rewrite Hbody. by destruct (raise_for_status r).
  - intros Hfail. unfold proxy_image, bind, http_get.
    destruct Hfail as [e | r e He]; [done|]. by rewrite He.
Qed.

Lemma upstream_failure_replies_witness :
  result (discover_images "k" (Fixture.failing_world 0 "Read timed out") "folder" initial_cache)
  = Spec.error_reply 500 "Failed to fetch files from Google Drive"
  /\ result (proxy_image
               (Fixture.world_at 0 (Returned (Fixture.csv_response 404 "text/html" "gone")))
               "idA" initial_cache)
     = Spec.error_reply 500 "404 Client Error:  for url: ".
Proof.
  split.
  - apply (proj1 (upstream_failure_replies "k" (Fixture.failing_world 0 "Read timed out")
                    initial_cache "folder" "idA" "")).
    + reflexivity.
    + reflexivity.
    + apply Spec.fails_raised.
  - apply (proj2 (upstream_failure_replies "k"
                    (Fixture.world_at 0 (Returned (Fixture.csv_response 404 "text/html" "gone")))
                    initial_cache "folder" "idA" "404 Client Error:  for url: ")).
    apply Spec.fw_status. reflexivity.
Defined.

(** C9, as the claim states it, fails: an empty credential is not the
    placeholder, yet the status endpoint reports [api_configured = false]. *)
Lemma api_configured_counterexample :
  ~ (forall (key : string) (w : world) (c : cache),
        Spec.api_configured_of (result (get_status key w c))
        = Some (negb (bool_decide (key = "YOUR_API_KEY_HERE")))).
Proof.
  intros H.
  specialize (H "" (Fixture.failing_world 0 "") initial_cache).
  vm_compute in H. discriminate H.
Qed.

(** C9, amended.  The status endpoint reports [api_configured = false]
    exactly when the configured credential is empty or equals the
    placeholder ['YOUR_API_KEY_HERE'], and [api_configured = true] for every
    other credential. *)
Theorem get_status_api_configured (key : string) (w : world) (c : cache) :
  (Spec.api_configured_of (result (get_status key w c)) = Some false
   <-> key = "" \/ key = "YOUR_API_KEY_HERE")
  /\ (Spec.api_configured_of (result (get_status key w c)) = Some true
      <-> key <> "" /\ key <> "YOUR_API_KEY_HERE").
Proof.
  unfold get_status, bind, read_cache, ret, result, Spec.api_configured_of. simpl.
  destruct key as [|ch key]; simpl.
  - split; split; try done; [by left | by intros [? ?]].
  - case_bool_decide as Hk; simpl; split; split; try done.
    + by right.
    + by intros [_ ?].
    + by intros [? | ?].
Qed.

(** C10, as the claim states it, fails: a status that is not a success
    is a failure of the listing call only when it is an error status.  A 300
    reply with a parseable listing is filtered, cached and returned. *)
Lemma non_success_status_counterexample :
  ~ (forall (key : string) (w : world) (folder_id : string) (c : cache),
        cache_hit c folder_id (w_time w) = false ->
        Spec.listing_fails Spec.non_success_status (w_http w (drive_request key folder_id)) ->
        result (get_drive_files key w folder_id c) = None
        /\ final_cache (get_drive_files key w folder_id c) = c).
Proof.
  intros H.
  destruct (H "k"
              (Fixture.world_at 0 (Returned (Fixture.listing_response 300 [Fixture.file_A])))
              "folder" initial_cache eq_refl
              (Spec.fails_status Spec.non_success_status
                 (Fixture.listing_response 300 [Fixture.file_A]) eq_refl))
    as [Hres _].
  vm_compute in Hres. discriminate Hres.
Qed.

(** C10, amended.  For every folder id, if the upstream listing call fails
    (network error, timeout, a 4xx or 5xx HTTP status, or an unparseable
    response), [get_drive_files] returns the failure sentinel and the three
    cache fields are as they were before the call: the cache is written
    only after a successful fetch. *)
Theorem get_drive_files_failure_keeps_cache
    (key : string) (w : world) (folder_id : string) (c : cache) :
  Spec.listing_fails Spec.error_status (w_http w (drive_request key folder_id)) ->
  final_cache (get_drive_files key w folder_id c) = c
  /\ (CacheWrite ∉ trace (get_drive_files key w folder_id c))
  /\ (cache_hit c folder_id (w_time w) = false ->
      get_drive_files key w folder_id c
      = (None, c, [CacheRead; HttpGet (drive_request key folder_id)])).
Proof.
  intros Hfail.
  assert (Spec.listing (w_http w (drive_request key folder_id)) = None) as Hnone.
  { unfold Spec.listing.
    destruct Hfail as [e | r Hbad | r Hbody]; [done | |].
    - apply raise_for_status_Some in Hbad as [e ->]. done.
    - rewrite Hbody. by destruct (raise_for_status r). }
  rewrite get_drive_files_eq, Hnone.
  destruct (cache_hit c folder_id (w_time w)); simpl.
  - split; [done|]. split; [|done].
    rewrite elem_of_cons, elem_of_nil. by intros [?|?].
  - split; [done|]. split; [|done].
    rewrite !elem_of_cons, elem_of_nil. by intros [?|[?|?]].
Qed.

Lemma get_drive_files_failure_keeps_cache_witness :
  get_drive_files "k"
    (Fixture.world_at 50 (Returned (Fixture.listing_response 503 [Fixture.file_B])))
    "other" (stored (Fixture.listing_world 0 [Fixture.file_A]) "folder" [Fixture.file_A])
  = (None,
     stored (Fixture.listing_world 0 [Fixture.file_A]) "folder" [Fixture.file_A],
     [CacheRead; HttpGet (drive_request "k" "other")]).
Proof.
  apply (get_drive_files_failure_keeps_cache "k"
           (Fixture.world_at 50 (Returned (Fixture.listing_response 503 [Fixture.file_B])))
           "other" (stored (Fixture.listing_world 0 [Fixture.file_A]) "folder" [Fixture.file_A])).
  - apply Spec.fails_status. reflexivity.
  - reflexivity.
Defined.

(** * Further properties *)

(** ** Lemmas on the effects of [discover_images] *)

Lemma discover_images_cases key w folder_id c :
  discover_images key w folder_id c =
  if Str.nonempty folder_id then
    if cache_hit c folder_id (w_time w) then
      (discovered w folder_id (default [] (c_data c)), c, [CacheRead])
    else
      match Spec.listing (w_http w (drive_request key folder_id)) with
      | None => (fetch_failed, c, [CacheRead; HttpGet (drive_request key folder_id)])
      | Some files =>
          (discovered w folder_id (filter_and_index files),
           stored w folder_id files,
           [CacheRead; HttpGet (drive_request key folder_id); CacheWrite])
      end
  else (Spec.error_reply 400 "No folder ID provided", c, []).
Proof.
  destruct (Str.nonempty folder_id) eqn:Hne.
  - rewrite discover_images_eq, get_drive_files_eq by done.
    destruct (cache_hit c folder_id (w_time w)) eqn:Hhit.
    + apply cache_hit_data in Hhit as (x & l & -> & _). done.
    + by destruct (Spec.listing _).
  - by destruct folder_id.
Qed.

Lemma nonempty_empty s : Str.nonempty s = false <-> s = EmptyString.
Proof. by destruct s. Qed.

Lemma cache_hit_expired c folder_id now :
  (CACHE_DURATION <= now - c_timestamp c)%Q -> cache_hit c folder_id now = false.
Proof.
  intros Hold. unfold cache_hit.
  assert (Qltb (now - c_timestamp c) CACHE_DURATION = false) as ->.
  { apply not_true_is_false. rewrite Qltb_lt. by apply Qle_not_lt. }
  by rewrite andb_false_r.
Qed.

Lemma cache_hit_ahead c folder_id now x l :
  c_data c = Some (x :: l) ->
  c_folder_id c = Some folder_id ->
  (now <= c_timestamp c)%Q ->
  cache_hit c folder_id now = true.
Proof.
  intros Hd Hf Hnow. unfold cache_hit. rewrite Hd, Hf. simpl.
  rewrite bool_decide_eq_true_2 by done. simpl.
  apply Qltb_lt. unfold CACHE_DURATION.
  apply Qle_lt_trans with (y := 0%Q); [|done].
  apply (Qplus_le_l _ _ (c_timestamp c)). ring_simplify. done.
Qed.

(** X1.  Every [discover_images] call ends in one of three ways.  For the
    empty folder id: the 400 envelope and no effect at all.  Otherwise
    either the 500 envelope after one cache read and one upstream request,
    the cache unchanged; or a 200 reply, served from the cache with one read
    and nothing else, or after one read, one request and one write.  There
    is never a second upstream request. *)
Theorem discover_images_effects
    (key : string) (w : world) (folder_id : string) (c : cache) :
  (folder_id = EmptyString
   /\ discover_images key w folder_id c
      = (Spec.error_reply 400 "No folder ID provided", c, []))
  \/ (folder_id <> EmptyString
      /\ discover_images key w folder_id c
         = (Spec.error_reply 500 "Failed to fetch files from Google Drive", c,
            [CacheRead; HttpGet (drive_request key folder_id)]))
  \/ (folder_id <> EmptyString
      /\ rp_status (result (discover_images key w folder_id c)) = 200
      /\ ((final_cache (discover_images key w folder_id c) = c
           /\ trace (discover_images key w folder_id c) = [CacheRead])
          \/ trace (discover_images key w folder_id c)
             = [CacheRead; HttpGet (drive_request key folder_id); CacheWrite])).
Proof.
  rewrite discover_images_cases.
  destruct (Str.nonempty folder_id) eqn:Hne.
  - assert (folder_id <> EmptyString) as Hf by (by intros ->).
    destruct (cache_hit c folder_id (w_time w)).
    + right. right. split; [done|]. split; [done|]. by left.
    + destruct (Spec.listing _).
      * right. right. split; [done|]. split; [done|]. by right.
      * right. left. by split.
  - left. apply nonempty_empty in Hne. by split.
Qed.

(** X2.  After a 200 reply of [discover_images] the cache holds the
    requested folder id and a list of image records, and the reply is
    that list's: [images] is its index mapping and [total_found] its
    length. *)
Theorem discover_reply_is_cached
    (key : string) (w : world) (folder_id : string) (c : cache) :
  rp_status (result (discover_images key w folder_id c)) = 200 ->
  exists data,
    c_data (final_cache (discover_images key w folder_id c)) = Some data
    /\ c_folder_id (final_cache (discover_images key w folder_id c)) = Some folder_id
    /\ result (discover_images key w folder_id c)
       = {| rp_body := DiscoverJson true (image_mapping data)
                         (Z.of_nat (length data)) folder_id (w_isoformat w);
            rp_status := 200 |}.
Proof.
  rewrite discover_images_cases.
  destruct (Str.nonempty folder_id); [|done].
  destruct (cache_hit c folder_id (w_time w)) eqn:Hhit.
  - intros _. apply cache_hit_data in Hhit as (x & l & Hd & Hf).
    exists (x :: l). unfold final_cache, result. simpl.
    rewrite Hd. by repeat split.
  - destruct (Spec.listing _) as [files|]; [|done].
    intros _. by exists (filter_and_index files).
Qed.

Lemma discover_reply_is_cached_witness :
  exists data,
    c_data (final_cache (discover_images "k"
              (Fixture.listing_world 7 [Fixture.file_C; Fixture.pdf; Fixture.file_A])
              "folder" initial_cache)) = Some data
    /\ c_folder_id (final_cache (discover_images "k"
              (Fixture.listing_world 7 [Fixture.file_C; Fixture.pdf; Fixture.file_A])
              "folder" initial_cache)) = Some "folder"
    /\ result (discover_images "k"
              (Fixture.listing_world 7 [Fixture.file_C; Fixture.pdf; Fixture.file_A])
              "folder" initial_cache)
       = {| rp_body := DiscoverJson true (image_mapping data)
                         (Z.of_nat (length data)) "folder" "2024-01-01T00:00:00";
            rp_status := 200 |}.
Proof.
  apply (discover_reply_is_cached "k"
           (Fixture.listing_world 7 [Fixture.file_C; Fixture.pdf; Fixture.file_A])
           "folder" initial_cache).
  reflexivity.
Defined.

(** X3.  A cache entry whose age has reached [CACHE_DURATION] is never
    served: a [discover_images] call for a non-empty folder id made 30
    seconds or more after the stored timestamp, 30 seconds exactly
    included, lists the folder upstream. *)
Theorem discover_expired_entry_refetched
    (key : string) (w : world) (folder_id : string) (c : cache) :
  Str.nonempty folder_id = true ->
  (CACHE_DURATION <= w_time w - c_timestamp c)%Q ->
  HttpGet (drive_request key folder_id) ∈ trace (discover_images key w folder_id c).
Proof.
  intros Hne Hold. apply discover_images_miss_trace; [done|].
  by apply cache_hit_expired.
Qed.

Lemma discover_expired_entry_refetched_witness :
  HttpGet (drive_request "k" "folder")
  ∈ trace (discover_images "k" (Fixture.failing_world 30 "down") "folder"
             (stored (Fixture.listing_world 0 [Fixture.file_A]) "folder" [Fixture.file_A])).
Proof.
  apply (discover_expired_entry_refetched "k" (Fixture.failing_world 30 "down") "folder"
           (stored (Fixture.listing_world 0 [Fixture.file_A]) "folder" [Fixture.file_A])).
  - reflexivity.
  - vm_compute. discriminate.
Defined.

(** X4.  The age check has no lower bound: an entry for the requested
    folder, with at least one image, whose timestamp is not earlier than the
    clock reading (the wall clock was set back) is served from the cache,
    however far ahead the timestamp is. *)
Theorem discover_entry_ahead_of_clock_served
    (key : string) (w : world) (folder_id : string) (c : cache)
    (x : ImageFile) (l : list ImageFile) :
  Str.nonempty folder_id = true ->
  c_data c = Some (x :: l) ->
  c_folder_id c = Some folder_id ->
  (w_time w <= c_timestamp c)%Q ->
  discover_images key w folder_id c
  = ({| rp_body := DiscoverJson true (image_mapping (x :: l))
                     (Z.of_nat (length (x :: l))) folder_id (w_isoformat w);
        rp_status := 200 |}, c, [CacheRead]).
Proof.
  intros Hne Hd Hf Hnow.
  rewrite discover_images_cases, Hne.
  rewrite (cache_hit_ahead c folder_id (w_time w) x l) by done.
  by rewrite Hd.
Qed.

Lemma discover_entry_ahead_of_clock_served_witness :
  trace (discover_images "k" (Fixture.failing_world 0 "down") "folder"
           (stored (Fixture.listing_world 100000 [Fixture.file_A]) "folder" [Fixture.file_A]))
  = [CacheRead].
Proof.
  rewrite (discover_entry_ahead_of_clock_served "k" (Fixture.failing_world 0 "down") "folder"
             (stored (Fixture.listing_world 100000 [Fixture.file_A]) "folder" [Fixture.file_A])
             (default {| img_id := ""; img_name := ""; img_index := 0; img_url := "";
                         img_proxy_url := ""; img_modified := "" |} (image_of Fixture.file_A))
             []).
  - reflexivity.
  - reflexivity.
  - reflexivity.
  - reflexivity.
  - vm_compute. discriminate.
Defined.

(** X5.  A discovery that succeeds without finding an image is stored but
    never served: after a 200 reply with [total_found = 0], the next
    [discover_images] call for the same folder lists it upstream again,
    whenever it is made. *)
Theorem discover_empty_result_refetched
    (key : string) (w1 w2 : world) (folder_id : string) (c : cache)
    (images : gmap Z Projection) (stamp : string) :
  result (discover_images key w1 folder_id c)
  = {| rp_body := DiscoverJson true images 0 folder_id stamp; rp_status := 200 |} ->
  HttpGet (drive_request key folder_id)
  ∈ trace (discover_images key w2 folder_id
             (final_cache (discover_images key w1 folder_id c))).
Proof.
  intros Hfirst.
  assert (Str.nonempty folder_id = true) as Hne.
  { destruct (Str.nonempty folder_id) eqn:Hne; [done|].
    rewrite discover_images_cases, Hne in Hfirst. discriminate Hfirst. }
  apply empty_listing_refetched; [done|].
  rewrite discover_images_cases, Hne in Hfirst |- *.
  destruct (cache_hit c folder_id (w_time w1)) eqn:Hhit.
  - apply cache_hit_data in Hhit as (x & l & Hd & _).
    rewrite Hd in Hfirst. simpl in Hfirst. unfold result in Hfirst. simpl in Hfirst.
    injection Hfirst as _ Hlen _. lia.
  - destruct (Spec.listing _) as [files|]; [|discriminate Hfirst].
    unfold result in Hfirst. simpl in Hfirst. injection Hfirst as _ Hlen _.
    simpl. f_equal. destruct (filter_and_index files); [done|]. simpl in Hlen. lia.
Qed.

Lemma discover_empty_result_refetched_witness :
  HttpGet (drive_request "k" "folder")
  ∈ trace (discover_images "k" (Fixture.listing_world 1 [Fixture.pdf]) "folder"
             (final_cache (discover_images "k" (Fixture.listing_world 0 [Fixture.pdf])
                             "folder" initial_cache))).
Proof.
  apply (discover_empty_result_refetched "k" (Fixture.listing_world 0 [Fixture.pdf])
           (Fixture.listing_world 1 [Fixture.pdf]) "folder" initial_cache
           ∅ "2024-01-01T00:00:00").
  reflexivity.
Defined.

(** X6.  The reply of [discover_images] and the cache it leaves depend on
    the upstream answer only through the parsed listing: two runs at the
    same clock readings whose upstream answers parse to the same listing, or
    both fail, give the same reply and the same cache, whatever the API
    keys, the status lines and the error messages. *)
Theorem discover_reveals_listing_only
    (key1 key2 : string) (w1 w2 : world) (folder_id : string) (c : cache) :
  w_time w1 = w_time w2 ->
  w_isoformat w1 = w_isoformat w2 ->
  Spec.listing (w_http w1 (drive_request key1 folder_id))
  = Spec.listing (w_http w2 (drive_request key2 folder_id)) ->
  result (discover_images key1 w1 folder_id c) = result (discover_images key2 w2 folder_id c)
  /\ final_cache (discover_images key1 w1 folder_id c)
     = final_cache (discover_images key2 w2 folder_id c).
Proof.
  intros Ht Hiso Hlisting.
  rewrite !discover_images_cases, Ht, Hlisting.
  unfold discovered, stored. rewrite Ht, Hiso.
  destruct (Str.nonempty folder_id); [|done].
  destruct (cache_hit c folder_id (w_time w2)); [done|].
  clear Hlisting.
  by destruct (Spec.listing (w_http w2 (drive_request key2 folder_id))).
Qed.

Lemma discover_reveals_listing_only_witness :
  result (discover_images "secret"
            (Fixture.world_at 3 (Returned (Fixture.listing_response 403 [])))
            "folder" initial_cache)
  = result (discover_images "" (Fixture.failing_world 3 "Read timed out")
              "folder" initial_cache)
  /\ final_cache (discover_images "secret"
                    (Fixture.world_at 3 (Returned (Fixture.listing_response 403 [])))
                    "folder" initial_cache)
     = final_cache (discover_images "" (Fixture.failing_world 3 "Read timed out")
                      "folder" initial_cache).
Proof.
  apply (discover_reveals_listing_only "secret" ""
           (Fixture.world_at 3 (Returned (Fixture.listing_response 403 [])))
           (Fixture.failing_world 3 "Read timed out") "folder" initial_cache);
    reflexivity.
Defined.

(** ** Lemmas on histories of requests *)

Lemma proxy_image_effects w file_id c :
  final_cache (proxy_image w file_id c) = c
  /\ trace (proxy_image w file_id c) = [HttpGet (proxy_request file_id)].
Proof.
  unfold proxy_image, bind, http_get.
  destruct (w_http w (proxy_request file_id)) as [e|r]; [done|].
  by destruct (raise_for_status r).
Qed.

Lemma get_sheets_data_cache w sheet_id c :
  final_cache (get_sheets_data w sheet_id c) = c.
Proof.
  rewrite get_sheets_data_eq.
  by destruct (try_formats_result w (url_formats sheet_id) c)
    as [(csv_text & u & log & _ & ->) | ->].
Qed.

Lemma handle_other_cache key w q c :
  Inv.is_discover q = false -> final_cache (handle key w q c) = c.
Proof.
  destruct q as [folder_id|file_id|sheet_id|]; [done| | |]; intros _; simpl.
  - apply proxy_image_effects.
  - apply get_sheets_data_cache.
  - done.
Qed.

Lemma handle_well_formed key w q c :
  Inv.well_formed c -> Inv.well_formed (final_cache (handle key w q c)).
Proof.
  intros Hc. destruct (Inv.is_discover q) eqn:Hq.
  - destruct q as [folder_id| | |]; try done. simpl.
    rewrite discover_images_cases.
    destruct (Str.nonempty folder_id) eqn:Hne; [|done].
    destruct (cache_hit c folder_id (w_time w)); [done|].
    destruct (Spec.listing _) as [files|]; [|done].
    right. by exists w, folder_id, files.
  - by rewrite handle_other_cache.
Qed.

Lemma serve_well_formed key history c :
  Inv.well_formed c -> Inv.well_formed (serve key history c).
Proof.
  unfold serve. revert c.
  induction history as [|[w q] history IH]; intros c Hc; simpl; [done|].
  apply IH. by apply handle_well_formed.
Qed.

Lemma initial_well_formed : Inv.well_formed initial_cache.
Proof. by left. Qed.

Lemma filter_and_index_elem files img :
  img ∈ filter_and_index files ->
  exists file, file ∈ files /\ image_of file = Some img.
Proof.
  unfold filter_and_index. rewrite sort_by_index_perm.
  rewrite list_elem_of_omap. intros (file & Hfile & Himg). by exists file.
Qed.

Lemma image_record_shape file img :
  image_of file = Some img ->
  0 <= img_index img
  /\ (exists run, Spec.first_digit_run (img_name img) run
                  /\ img_index img = Spec.decimal_value run)
  /\ img_url img = download_url (img_id img)
  /\ img_proxy_url img = proxy_path (img_id img).
Proof.
  intros Himg. apply image_of_Some in Himg as [_ Hi].
  destruct Hi as (Hid & Hname & Hurl & Hproxy & _ & Hpos & run & Hrun & Hidx).
  rewrite Hid, Hname. repeat split; try done. by exists run.
Qed.

Lemma image_mapping_entry l n p :
  image_mapping l !! n = Some p ->
  exists img, img ∈ l /\ img_index img = n /\ p = projection img.
Proof.
  rewrite image_mapping_lookup.
  destruct (last (Spec.with_index n l)) as [img|] eqn:Hlast; [|done].
  intros [= <-]. exists img.
  apply last_Some_elem_of in Hlast. apply with_index_elem in Hlast as [? ?].
  by repeat split.
Qed.

(** A 200 reply over a well-formed cache shows the images of some
    listing. *)
Lemma discover_ok_from_listing key w folder_id c :
  Inv.well_formed c ->
  rp_status (result (discover_images key w folder_id c)) = 200 ->
  exists files,
    result (discover_images key w folder_id c)
    = discovered w folder_id (filter_and_index files).
Proof.
  intros Hc. rewrite discover_images_cases.
  destruct (Str.nonempty folder_id); [|done].
  destruct (cache_hit c folder_id (w_time w)) eqn:Hhit.
  - intros _. destruct Hc as [-> | (w0 & f0 & files & _ & ->)]; [done|].
    by exists files.
  - destruct (Spec.listing _) as [files|]; [|done]. intros _. by exists files.
Qed.


(** X8.  Over any history of requests, every entry of the [images]
    mapping of a 200 discovery reply has a non-negative key, which is the
    number denoted by the first run of digits of the entry's name, and
    carries the URLs of its own id: [url] is the address [proxy_image]
    fetches for that id and [proxy_url] is the proxy route of that id. *)
Theorem served_entries_are_images
    (key : string) (history : list (world * call)) (w : world) (folder_id : string)
    (images : gmap Z Projection) (total : Z) (stamp : string)
    (n : Z) (p : Projection) :
  result (discover_images key w folder_id (serve key history initial_cache))
  = {| rp_body := DiscoverJson true images total folder_id stamp; rp_status := 200 |} ->
  images !! n = Some p ->
  0 <= n
  /\ (exists run, Spec.first_digit_run (pj_name p) run /\ n = Spec.decimal_value run)
  /\ pj_proxy_url p = proxy_path (pj_id p)
  /\ pj_url p = rq_url (proxy_request (pj_id p)).
Proof.
  intros Hreply Hn.
  destruct (discover_ok_from_listing key w folder_id (serve key history initial_cache))
    as (files & Hfiles).
  { apply serve_well_formed, initial_well_formed. }
  { by rewrite Hreply. }
  rewrite Hfiles in Hreply. injection Hreply as <- _ _.
  apply image_mapping_entry in Hn as (img & Himg & <- & ->).
  apply filter_and_index_elem in Himg as (file & _ & Himg).
  apply image_record_shape in Himg as (? & ? & ? & ?). done.
Qed.

Lemma served_entries_are_images_witness :
  0 <= 3
  /\ (exists run, Spec.first_digit_run "3-new.jpg" run /\ 3 = Spec.decimal_value run)
  /\ "/api/proxy-image/idB" = proxy_path "idB"
  /\ "https://drive.google.com/uc?id=idB&export=download" = rq_url (proxy_request "idB").
Proof.
  apply (served_entries_are_images "k"
           [(Fixture.listing_world 0 [Fixture.file_A; Fixture.file_B], Discover "folder");
            (Fixture.failing_world 1 "down", Status)]
           (Fixture.failing_world 2 "down") "folder"
           (image_mapping (filter_and_index [Fixture.file_A; Fixture.file_B]))
           2 "2024-01-01T00:00:00" 3
           {| pj_id := "idB"; pj_name := "3-new.jpg";
              pj_url := "https://drive.google.com/uc?id=idB&export=download";
              pj_proxy_url := "/api/proxy-image/idB";
              pj_modified := "2024-01-01T00:00:00Z" |}).
  - reflexivity.
  - reflexivity.
Defined.


(** X10.  Only [discover_images] changes the cache: a history made of
    proxy, sheet and status requests, in any number and any worlds, leaves
    the three cache fields as they were. *)
Theorem only_discover_changes_cache
    (key : string) (history : list (world * call)) (c : cache) :
  Forall (fun wq => Inv.is_discover wq.2 = false) history ->
  serve key history c = c.
Proof.
  unfold serve. induction 1 as [|[w q] history Hq _ IH]; simpl; [done|].
  by rewrite handle_other_cache.
Qed.

Lemma only_discover_changes_cache_witness :
  serve "k"
    [(Fixture.html_then_csv, SheetsData "S");
     (Fixture.world_at 1 (Returned (Fixture.csv_response 200 "image/png" "bytes")),
      ProxyImage "idA");
     (Fixture.failing_world 2 "down", Status);
     (Fixture.all_failing, SheetsData "S")]
    (stored (Fixture.listing_world 0 [Fixture.file_A]) "folder" [Fixture.file_A])
  = stored (Fixture.listing_world 0 [Fixture.file_A]) "folder" [Fixture.file_A].
Proof.
  apply (only_discover_changes_cache "k").
  repeat constructor.
Defined.

(** ** Lemmas on the keys of the mapping *)

Lemma dom_fold_mapping l (m : gmap Z Projection) :
  dom (foldl (fun m f => <[img_index f := projection f]> m) m l)
  = list_to_set (img_index <$> l) ∪ dom m.
Proof.
  revert m. induction l as [|x l IH]; intros m.
  - simpl. by rewrite (left_id_L ∅ (∪)).
  - simpl foldl. rewrite IH, dom_insert_L, fmap_cons, list_to_set_cons.
    rewrite (comm_L (∪) {[img_index x]} (list_to_set (img_index <$> l))).
    by rewrite (assoc_L (∪)).
Qed.

Lemma dom_image_mapping l :
  dom (image_mapping l) = list_to_set (img_index <$> l).
Proof.
  unfold image_mapping. rewrite dom_fold_mapping, dom_empty_L.
  by rewrite (right_id_L ∅ (∪)).
Qed.

Lemma singleton_union_member (x : Z) (l : list Z) :
  x ∈ l -> {[x]} ∪ list_to_set l = (list_to_set l : gset Z).
Proof.
  intros Hx. apply set_eq. intros y.
  rewrite elem_of_union, elem_of_singleton, elem_of_list_to_set.
  split; [by intros [->|?] | by right].
Qed.

Lemma singleton_disjoint_list (x : Z) (l : list Z) :
  x ∉ l -> ({[x]} : gset Z) ## list_to_set l.
Proof.
  intros Hx. apply elem_of_disjoint. intros y.
  rewrite elem_of_singleton, elem_of_list_to_set. by intros ->.
Qed.

Lemma size_list_to_set_le (l : list Z) :
  (size (list_to_set l : gset Z) <= length l)%nat.
Proof.
  induction l as [|x l IH].
  - rewrite list_to_set_nil, size_empty. done.
  - rewrite list_to_set_cons. simpl length.
    destruct (decide (x ∈ l)) as [Hx|Hx].
    + rewrite (singleton_union_member x l Hx). lia.
    + rewrite size_union by (by apply singleton_disjoint_list).
      rewrite size_singleton. lia.
Qed.

Lemma size_list_to_set_full (l : list Z) :
  size (list_to_set l : gset Z) = length l <-> NoDup l.
Proof.
  split; [|apply size_list_to_set].
  induction l as [|x l IH]; [constructor|].
  rewrite list_to_set_cons. simpl length.
  pose proof (size_list_to_set_le l) as Hle.
  destruct (decide (x ∈ l)) as [Hx|Hx].
  - rewrite (singleton_union_member x l Hx). lia.
  - rewrite size_union by (by apply singleton_disjoint_list).
    rewrite size_singleton.
    intros Hsize. apply NoDup_cons. split; [done|]. apply IH. lia.
Qed.

(** X11.  The keys of the [images] mapping built from a listing are
    exactly the indexes of the listed files that pass the image filter:
    every such file has its index among the keys, and there is no other
    key. *)
Theorem images_keys_are_indexes (files : list RawFile) (n : Z) :
  is_Some (image_mapping (filter_and_index files) !! n)
  <-> exists file img,
        file ∈ files /\ image_of file = Some img /\ img_index img = n.
Proof.
  split.
  - intros [p Hp].
    apply image_mapping_entry in Hp as (img & Himg & Hn & _).
    apply filter_and_index_elem in Himg as (file & Hfile & Himg).
    by exists file, img.
  - intros (file & img & Hfile & Himg & Hn).
    rewrite image_mapping_sorted, fmap_is_Some, last_is_Some.
    intros Hnil.
    assert (img ∈ Spec.with_index n (omap image_of files)) as Hin.
    { unfold Spec.with_index. apply list_elem_of_filter. split; [done|].
      apply list_elem_of_omap. by exists file. }
    rewrite Hnil in Hin. by apply elem_of_nil in Hin.
Qed.

(** X12.  The [images] mapping never has more entries than the list it
    is built from, so that [total_found] is at least the number of entries
    of [images]; the two are equal exactly when no two records share an
    index. *)
Theorem images_size_at_most_total (l : list ImageFile) :
  (size (image_mapping l) <= length l)%nat
  /\ (size (image_mapping l) = length l <-> NoDup (img_index <$> l)).
Proof.
  rewrite <- size_dom, dom_image_mapping.
  rewrite <- (length_fmap img_index l).
  split; [apply size_list_to_set_le | apply size_list_to_set_full].
Qed.

(** X13.  The filtered and sorted list depends on the upstream order only
    within each index: two listings whose image records of each index are
    the same, in the same order, give the same list, however records of
    different indexes are interleaved upstream. *)
Theorem listing_order_matters_within_index_only (files1 files2 : list RawFile) :
  (forall k, Spec.with_index k (omap image_of files1)
             = Spec.with_index k (omap image_of files2)) ->
  filter_and_index files1 = filter_and_index files2.
Proof.
  intros Hk. unfold filter_and_index.
  apply stable_sort_unique; [apply sort_by_index_sorted .. |].
  intros k. by rewrite !with_index_sort.
Qed.

Lemma listing_order_matters_within_index_only_witness :
  filter_and_index [Fixture.file_C; Fixture.file_A; Fixture.pdf; Fixture.file_B]
  = filter_and_index [Fixture.file_A; Fixture.file_B; Fixture.file_C].
Proof.
  apply (listing_order_matters_within_index_only
           [Fixture.file_C; Fixture.file_A; Fixture.pdf; Fixture.file_B]
           [Fixture.file_A; Fixture.file_B; Fixture.file_C]).
  intros k. unfold Spec.with_index. simpl.
  rewrite !filter_cons, !filter_nil. simpl.
  change (Re.int "01") with 1. change (Re.int "03") with 3. change (Re.int "3") with 3.
  destruct (decide (1 = k)), (decide (3 = k)); reflexivity || lia.
Defined.

(** ** Lemmas on the proxy and on the sheet fetcher *)

Lemma try_formats_prefix w urls c :
  exists n,
    (n <= length urls)%nat
    /\ (urls <> [] -> (1 <= n)%nat)
    /\ try_formats w urls c = (result (try_formats w urls c), c,
                               Spec.requests_of (take n urls))
    /\ (result (try_formats w urls c) = None -> n = length urls).
Proof.
  induction urls as [|u urls (n & Hn & _ & Hrun & Hnone)].
  - exists 0%nat. by repeat split.
  - simpl. unfold bind, http_get.
    destruct (attempt (w_http w (sheets_request u))) as [csv_text|].
    + exists 1%nat. simpl. repeat split; try done; lia.
    + exists (S n). rewrite Hrun. simpl. repeat split; try done; try lia.
      intros H. f_equal. by apply Hnone.
Qed.

Lemma try_formats_found w urls c csv_text u :
  result (try_formats w urls c) = Some (csv_text, u) ->
  u ∈ urls /\ attempt (w_http w (sheets_request u)) = Some csv_text.
Proof.
  induction urls as [|v urls IH]; [done|].
  simpl. unfold bind, http_get.
  destruct (attempt (w_http w (sheets_request v))) as [t|] eqn:Hv.
  - intros [= -> ->]. split; [apply elem_of_cons; by left | done].
  - destruct (try_formats w urls c) as [[found c'] log] eqn:Hrun.
    unfold result in *. simpl in *. intros ->.
    destruct IH as [Hu Hat]; [done|]. split; [apply elem_of_cons; by right | done].
Qed.

Lemma get_sheets_data_found w sheet_id c csv_text u :
  result (get_sheets_data w sheet_id c) = Spec.sheets_found w csv_text u ->
  u ∈ url_formats sheet_id /\ attempt (w_http w (sheets_request u)) = Some csv_text.
Proof.
  rewrite get_sheets_data_eq.
  destruct (try_formats w (url_formats sheet_id) c) as [[[[t v]|] c'] log] eqn:Hrun.
  - intros [= -> ->]. apply (try_formats_found w _ c). by rewrite Hrun.
  - intros H. discriminate H.
Qed.

Lemma string_length_app (s t : string) :
  String.length (s +:+ t) = (String.length s + String.length t)%nat.
Proof.
  induction s as [|a s IH]; [done|].
  rewrite app_cons. simpl. by rewrite IH.
Qed.

Lemma lstrip_first s : Inv.first_is_space (Str.lstrip s) = false.
Proof.
  induction s as [|a s IH]; [done|]. simpl.
  destruct (Str.is_space a) eqn:Ha; [done|]. simpl. done.
Qed.

Lemma rstrip_first s :
  Inv.first_is_space s = false -> Inv.first_is_space (Str.rstrip s) = false.
Proof.
  destruct s as [|a s]; [done|]. simpl. intros Ha.
  destruct (Str.rstrip s); simpl; by rewrite ?Ha.
Qed.

Lemma rstrip_last s : Inv.last_is_space (Str.rstrip s) = false.
Proof.
  induction s as [|a s IH]; [done|]. simpl.
  destruct (Str.rstrip s) as [|b t] eqn:Hs.
  - destruct (Str.is_space a) eqn:Ha; simpl; by rewrite ?Ha.
  - exact IH.
Qed.

Lemma strip_all_space s :
  Spec.all Str.is_space s = true -> Str.strip s = EmptyString.
Proof.
  unfold Str.strip. induction s as [|a s IH]; [done|]. simpl.
  intros [Ha Hs]%andb_true_iff. rewrite Ha. by apply IH.
Qed.

(** X14.  [proxy_image] makes exactly one request, to the download URL of
    the file id, and neither reads nor writes the cache.  It answers 200
    exactly when upstream returned a response with a status outside the 4xx
    and 5xx ranges, and then relays the body bytes as they are, under the
    upstream content type whatever it is ([image/jpeg] when there is
    none), with the two fixed headers; in every other case it answers 500
    with a JSON error. *)
Theorem proxy_image_relays (w : world) (file_id : string) (c : cache) :
  final_cache (proxy_image w file_id c) = c
  /\ trace (proxy_image w file_id c)
     = [HttpGet {| rq_url := download_url file_id; rq_params := []; rq_timeout := 30 |}]
  /\ match Inv.relayed (w_http w (proxy_request file_id)) with
     | Some r =>
         result (proxy_image w file_id c)
         = {| rp_body := Bytes (content r) (default "image/jpeg" (content_type r))
                           [("Cache-Control", "public, max-age=3600");
                            ("Access-Control-Allow-Origin", "*")];
              rp_status := 200 |}
     | None =>
         exists error,
           result (proxy_image w file_id c) = Spec.error_reply 500 error
     end.
Proof.
  split; [apply proxy_image_effects|]. split; [apply proxy_image_effects|].
  unfold proxy_image, bind, http_get, Inv.relayed.
  destruct (w_http w (proxy_request file_id)) as [e|r]; [by exists e|].
  destruct (raise_for_status r) as [e|] eqn:He.
  - assert (Spec.error_status r = true) as ->.
    { apply raise_for_status_Some. by exists e. }
    by exists e.
  - apply raise_for_status_None in He. unfold Spec.no_error_status in He.
    by destruct (Spec.error_status r).
Qed.

Lemma get_sheets_data_prefix w sheet_id c :
  exists n,
    (1 <= n <= 4)%nat
    /\ trace (get_sheets_data w sheet_id c)
       = Spec.requests_of (take n (url_formats sheet_id))
    /\ (rp_status (result (get_sheets_data w sheet_id c)) = 500 -> n = 4%nat).
Proof.
  destruct (try_formats_prefix w (url_formats sheet_id) c)
    as (n & Hn & Hpos & Hrun & Hnone).
  exists n. split; [split; [by apply Hpos | exact Hn]|].
  rewrite get_sheets_data_eq, Hrun.
  destruct (result (try_formats w (url_formats sheet_id) c)) as [[t u]|].
  - split; [done|]. intros H. discriminate H.
  - split; [done|]. intros _. by apply Hnone.
Qed.

(** X15.  [get_sheets_data] never touches the cache, and the requests it
    makes are the first [n] URL templates in their listed order, for some
    [n] from 1 to 4; it answers 500 only after all four. *)
Theorem get_sheets_data_requests (w : world) (sheet_id : string) (c : cache) :
  final_cache (get_sheets_data w sheet_id c) = c
  /\ exists n,
       (1 <= n <= 4)%nat
       /\ trace (get_sheets_data w sheet_id c)
          = Spec.requests_of (take n (url_formats sheet_id))
       /\ (rp_status (result (get_sheets_data w sheet_id c)) = 500 -> n = 4%nat).
Proof.
  split; [apply get_sheets_data_cache | apply get_sheets_data_prefix].
Qed.

(** X16.  The four URL templates give four different URLs for every sheet
    id, so that no URL is requested twice in one [get_sheets_data]
    call. *)
Theorem url_formats_distinct (w : world) (sheet_id : string) (c : cache) :
  NoDup (url_formats sheet_id)
  /\ NoDup (trace (get_sheets_data w sheet_id c)).
Proof.
  assert (NoDup (url_formats sheet_id)) as Hurls.
  { assert (NoDup (String.length <$> url_formats sheet_id)) as Hlen.
    { unfold url_formats. simpl. rewrite !string_length_app. simpl.
      repeat (apply NoDup_cons; split;
              [rewrite ?elem_of_cons, elem_of_nil; lia|]).
      constructor. }
    by apply NoDup_fmap_1 in Hlen. }
  split; [done|].
  destruct (get_sheets_data_prefix w sheet_id c) as (n & _ & -> & _).
  unfold Spec.requests_of.
  apply NoDup_fmap_2_strong.
  - intros u v _ _ [= ->]. done.
  - eapply sublist_NoDup; [exact Hurls | apply sublist_take].
Qed.

(** X17.  When the accepted response reports the encoding [utf-8], the
    [csv_data] of the success reply is the stripped response text: it
    neither starts nor ends with a whitespace character. *)
Theorem csv_data_stripped_when_utf8
    (w : world) (sheet_id : string) (c : cache)
    (csv_text sheets_url : string) (r : response) :
  result (get_sheets_data w sheet_id c) = Spec.sheets_found w csv_text sheets_url ->
  w_http w (sheets_request sheets_url) = Returned r ->
  encoding r = Some "utf-8" ->
  csv_text = Str.strip (text r)
  /\ Inv.first_is_space csv_text = false
  /\ Inv.last_is_space csv_text = false.
Proof.
  intros Hfound Hget Henc.
  apply get_sheets_data_found in Hfound as [_ Hat].
  rewrite Hget in Hat. unfold attempt in Hat.
  destruct (html_typed r); [done|].
  destruct (raise_for_status r); [done|].
  destruct (looks_like_csv (csv_text_of r)); [|done].
  injection Hat as <-.
  unfold csv_text_of. rewrite bool_decide_eq_true_2 by done.
  split; [done|]. unfold Str.strip. split.
  - apply rstrip_first, lstrip_first.
  - apply rstrip_last.
Qed.

Lemma csv_data_stripped_when_utf8_witness :
  Fixture.csv_body = Str.strip (text (Fixture.csv_response 200 "text/csv" Fixture.csv_body))
  /\ Inv.first_is_space Fixture.csv_body = false
  /\ Inv.last_is_space Fixture.csv_body = false.
Proof.
  apply (csv_data_stripped_when_utf8 Fixture.html_then_csv "S" initial_cache
           Fixture.csv_body
           "https://docs.google.com/spreadsheets/d/S/export?format=csv&gid=0"
           (Fixture.csv_response 200 "text/csv" Fixture.csv_body)).
  - reflexivity.
  - reflexivity.
  - reflexivity.
Defined.

(** X18.  A response whose text is made of whitespace only, newlines
    included, and whose reported encoding is [utf-8] is never accepted:
    [get_sheets_data] does not return success for its URL. *)
Theorem whitespace_only_text_rejected
    (w : world) (sheet_id : string) (c : cache)
    (csv_text sheets_url : string) (r : response) :
  w_http w (sheets_request sheets_url) = Returned r ->
  Spec.all Str.is_space (text r) = true ->
  encoding r = Some "utf-8" ->
  result (get_sheets_data w sheet_id c) <> Spec.sheets_found w csv_text sheets_url.
Proof.
  intros Hget Hspace Henc Hfound.
  apply get_sheets_data_found in Hfound as [_ Hat].
  rewrite Hget in Hat. unfold attempt in Hat.
  destruct (html_typed r); [done|].
  destruct (raise_for_status r); [done|].
  unfold csv_text_of in Hat. rewrite bool_decide_eq_true_2 in Hat by done.
  rewrite strip_all_space in Hat by done. done.
Qed.

Lemma whitespace_only_text_rejected_witness :
  result (get_sheets_data Fixture2.blank_then_csv "S" initial_cache)
  <> Spec.sheets_found Fixture2.blank_then_csv Fixture2.blank_lines
       "https://docs.google.com/spreadsheets/d/e/S/pub?output=csv".
Proof.
  apply (whitespace_only_text_rejected Fixture2.blank_then_csv "S" initial_cache
           Fixture2.blank_lines
           "https://docs.google.com/spreadsheets/d/e/S/pub?output=csv"
           (Fixture.csv_response 200 "text/csv" Fixture2.blank_lines)).
  - reflexivity.
  - reflexivity.
  - reflexivity.
Defined.

(** X19.  A cache hit does not extend the life of the entry: after a
    listing with at least one image is stored, and whatever number of
    [discover_images] calls for the folder were served from it, a call made
    30 seconds or more after the fetch lists the folder upstream
    again. *)
Theorem hits_do_not_extend_entry
    (key : string) (w1 : world) (ws : list world) (w2 : world)
    (folder_id : string) (files : list RawFile) :
  Str.nonempty folder_id = true ->
  filter_and_index files <> [] ->
  Forall (fun w => (w_time w - w_time w1 < CACHE_DURATION)%Q) ws ->
  (CACHE_DURATION <= w_time w2 - w_time w1)%Q ->
  HttpGet (drive_request key folder_id)
  ∈ trace (discover_images key w2 folder_id
             (Spec.discover_all key ws folder_id (stored w1 folder_id files))).
Proof.
  intros Hne Hfiles Hws Hold.
  rewrite (discover_all_hits key ws w1) by done.
  apply discover_images_miss_trace; [done|].
  by apply cache_hit_expired.
Qed.

Lemma hits_do_not_extend_entry_witness :
  HttpGet (drive_request "k" "folder")
  ∈ trace (discover_images "k" (Fixture.failing_world 31 "down") "folder"
             (Spec.discover_all "k"
                [Fixture.failing_world 10 "down"; Fixture.failing_world 29 "down"]
                "folder"
                (stored (Fixture.listing_world 0 [Fixture.file_A]) "folder" [Fixture.file_A]))).
Proof.
  apply (hits_do_not_extend_entry "k" (Fixture.listing_world 0 [Fixture.file_A])
           [Fixture.failing_world 10 "down"; Fixture.failing_world 29 "down"]
           (Fixture.failing_world 31 "down") "folder" [Fixture.file_A]).
  - reflexivity.
  - discriminate.
  - repeat constructor.
  - vm_compute. discriminate.
Defined.

Lemma int_acc_zeros zeros run acc :
  Spec.all (fun ch => bool_decide (Str.digit_value ch = 0)) zeros = true ->
  Re.int_acc acc (zeros +:+ run) = Re.int_acc (acc * 10 ^ Z.of_nat (String.length zeros)) run.
Proof.
  revert acc. induction zeros as [|ch zeros IH]; intros acc Hz.
  - rewrite app_nil. simpl. f_equal. lia.
  - simpl in Hz. apply andb_true_iff in Hz as [Hch Hz].
    apply bool_decide_eq_true in Hch.
    rewrite app_cons. simpl Re.int_acc. rewrite IH, Hch by done.
    f_equal. simpl String.length. rewrite Nat2Z.inj_succ, Z.pow_succ_r by lia. ring.
Qed.

(** X20.  Zero padding does not tell indexes apart: two image files whose
    names' first digit runs differ only by leading zeros get the same
    index, hence the same key in [images]. *)
Theorem zero_padded_names_collide
    (file1 file2 : RawFile) (img1 img2 : ImageFile) (zeros run : string) :
  image_of file1 = Some img1 ->
  image_of file2 = Some img2 ->
  Spec.first_digit_run (rf_name file1) run ->
  Spec.first_digit_run (rf_name file2) (zeros +:+ run) ->
  Spec.all (fun ch => bool_decide (Str.digit_value ch = 0)) zeros = true ->
  img_index img1 = img_index img2.
Proof.
  intros H1 H2 Hrun1 Hrun2 Hz.
  apply search_digits_first_run in Hrun1, Hrun2.
  unfold image_of in H1, H2. rewrite Hrun1 in H1. rewrite Hrun2 in H2.
  destruct (Str.startswith _ _); [|done]. destruct (Str.startswith _ _); [|done].
  injection H1 as <-. injection H2 as <-. simpl.
  unfold Re.int. rewrite int_acc_zeros by done. f_equal.
Qed.

Lemma zero_padded_names_collide_witness :
  img_index (Fixture2.record_of Fixture2.plain)
  = img_index (Fixture2.record_of Fixture2.padded).
Proof.
  apply (zero_padded_names_collide Fixture2.plain Fixture2.padded
           (Fixture2.record_of Fixture2.plain) (Fixture2.record_of Fixture2.padded)
           "00" "7").
  - reflexivity.
  - reflexivity.
  - exists "slide_", ".jpg". by repeat split.
  - exists "slide_", ".jpg". by repeat split.
  - reflexivity.
Defined.
